(** * Cold-start predictor of [backend/server.py]

    A shallow embedding of [ColdStartPredictor]: the per-job pattern
    analyzer ([_analyze_job_pattern], [_detect_burst_pattern],
    [analyze_job_history]) and the prediction generator
    ([_generate_prediction], [predict_next_jobs]).

    Numbers are the numbers of the program: Python [float]s and NumPy
    [float64]s are IEEE binary64 values (Rocq's primitive [float]),
    [datetime]s and [timedelta]s are integer counts of microseconds with
    the ranges the [datetime] module enforces, and an operation that
    raises in Python returns [Raise] here. *)

From Stdlib Require Import Reals Lra.
From Stdlib Require Import ZArith List String Ascii Bool Lia.
From Stdlib Require Import Floats DecimalString Permutation Sorted.
Import ListNotations.

Set Warnings "-inexact-float".

Local Open Scope Z_scope.

(** ** Exceptions *)

Inductive exn : Type :=
| OverflowError
| ValueError.

Inductive result (A : Type) : Type :=
| Ok (a : A)
| Raise (e : exn).

Arguments Ok {A} a.
Arguments Raise {A} e.

Definition bind {A B : Type} (r : result A) (k : A -> result B) : result B :=
  match r with
  | Ok a => k a
  | Raise e => Raise e
  end.

Notation "x <- r ;; k" := (bind r (fun x => k))
  (at level 61, r at next level, right associativity).

Fixpoint mapM {A B : Type} (f : A -> result B) (l : list A) : result (list B) :=
  match l with
  | [] => Ok []
  | a :: l' => b <- f a ;; bs <- mapM f l' ;; Ok (b :: bs)
  end.

(** ** Python floats *)

Module PyFloat.

(** The exact integer [z] as a (not yet rounded) binary value. *)
Definition Z2SF (z : Z) : spec_float :=
  match z with
  | Z0 => S754_zero false
  | Zpos p => S754_finite false p 0
  | Zneg p => S754_finite true p 0
  end.

(** [float(z)]: the integer rounded to the nearest binary64. *)
Definition of_int (z : Z) : float :=
  SF2Prim (binary_normalize prec emax z 0 false).

(** [a / b] on Python ints ([b <> 0]): the correctly rounded quotient. *)
Definition int_truediv (a b : Z) : float :=
  SF2Prim (SFdiv prec emax (Z2SF a) (Z2SF b)).

(** [m * 2^e] truncated towards zero, for [m >= 0]. *)
Definition trunc_dyadic (m e : Z) : Z :=
  match e with
  | Zneg k => Z.shiftr m (Zpos k)
  | _ => Z.shiftl m e
  end.

(** [m * 2^e] rounded to the nearest integer, ties to even, for [m >= 0]. *)
Definition round_dyadic (m e : Z) : Z :=
  match e with
  | Zneg k =>
      let d := Z.shiftl 1 (Zpos k) in
      let q := m / d in
      match (2 * (m mod d)) ?= d with
      | Lt => q
      | Gt => q + 1
      | Eq => if Z.even q then q else q + 1
      end
  | _ => Z.shiftl m e
  end.

(** [int(x)] where it is defined: Python raises on NaN and infinities. *)
Definition to_int (x : float) : option Z :=
  match Prim2SF x with
  | S754_zero _ => Some 0
  | S754_finite s m e => Some (cond_Zopp s (trunc_dyadic (Zpos m) e))
  | _ => None
  end.

(** [round(x)] where it is defined (round half to even). *)
Definition round (x : float) : option Z :=
  match Prim2SF x with
  | S754_zero _ => Some 0
  | S754_finite s m e => Some (cond_Zopp s (round_dyadic (Zpos m) e))
  | _ => None
  end.

(** [int(x)] as [_generate_prediction] uses it, on the quotient and the
    remainder of a [time_diff] that its guard [0 <= time_diff <= 300] has
    already bounded. 0 stands for the values on which Python raises; under
    that guard there are none ([int_of_quotient_defined],
    [int_of_remainder_defined]). *)
Definition int (x : float) : Z :=
  match to_int x with
  | Some z => z
  | None => 0
  end.

(** C's [fmod]: the exact remainder, with the sign of [x]. *)
Definition fmod (x y : float) : float :=
  match Prim2SF x, Prim2SF y with
  | S754_finite sx mx ex, S754_finite _ my ey =>
      let e := Z.min ex ey in
      let r := Z.rem (Z.shiftl (Zpos mx) (ex - e)) (Z.shiftl (Zpos my) (ey - e)) in
      SF2Prim (binary_normalize prec emax (cond_Zopp sx r) e sx)
  | S754_zero _, S754_finite _ _ _ => x
  | S754_zero _, S754_infinity _ => x
  | S754_finite _ _ _, S754_infinity _ => x
  | _, _ => nan
  end.

(** [x % y] on floats, for [y <> 0] (CPython's [float_rem]). *)
Definition mod_ (x y : float) : float :=
  let m := fmod x y in
  if (m =? 0)%float then (if get_sign y then neg_zero else zero)
  else if is_nan m then m
  else if xorb (y <? 0)%float (m <? 0)%float then (m + y)%float
  else m.

Definition string_of_Z (z : Z) : string :=
  NilZero.string_of_int (Z.to_int z).

(** [f"{z:02d}"]. *)
Definition format_02d (z : Z) : string :=
  let s := string_of_Z z in
  match s with
  | String _ EmptyString =>
      if z <? 0 then s else String "0"%char s
  | _ => s
  end.

(** [f"{x:.0f}"]. *)
Definition format_0f (x : float) : string :=
  match Prim2SF x with
  | S754_nan => "nan"
  | S754_infinity s => if s then "-inf" else "inf"
  | S754_zero s => if s then "-0" else "0"
  | S754_finite s m e =>
      ((if s then "-" else "") ++ string_of_Z (round_dyadic (Zpos m) e))%string
  end.

End PyFloat.

(** ** [datetime] and [timedelta] *)

Module Datetime.

(** A naive [datetime]: microseconds since 0001-01-01T00:00:00. *)
Definition datetime := Z.

(** A [timedelta]: a signed count of microseconds. *)
Definition timedelta := Z.

Definition us_per_second : Z := 1000000.
Definition us_per_day : Z := 86400 * us_per_second.

(** [datetime.max] is 9999-12-31T23:59:59.999999, the last microsecond of
    day 3652059. *)
Definition max_datetime : Z := 3652059 * us_per_day - 1.

Definition valid_datetime (t : datetime) : bool :=
  (0 <=? t) && (t <=? max_datetime).

Definition max_delta_days : Z := 999999999.

Definition valid_timedelta (d : timedelta) : bool :=
  (- max_delta_days <=? d / us_per_day) && (d / us_per_day <=? max_delta_days).

(** [a - b] on datetimes: always within the range of [timedelta]. *)
Definition sub (a b : datetime) : timedelta := a - b.

(** [t + d]: [OverflowError] when the year leaves 1..9999. *)
Definition add (t : datetime) (d : timedelta) : result datetime :=
  if valid_datetime (t + d) then Ok (t + d) else Raise OverflowError.

(** [d.total_seconds()], which is [d / timedelta(seconds=1)]. *)
Definition total_seconds (d : timedelta) : float :=
  PyFloat.int_truediv d us_per_second.

(** [timedelta(minutes=n)] for an int [n]. *)
Definition of_minutes (n : Z) : timedelta := n * 60 * us_per_second.

(** [timedelta(seconds=x)] for a float [x]: the whole seconds are taken
    exactly, the fraction is scaled by [1e6] in floating point and rounded
    half to even; NaN raises [ValueError], an infinity or more than
    999999999 days [OverflowError]. *)
Definition of_seconds (x : float) : result timedelta :=
  match Prim2SF x with
  | S754_nan => Raise ValueError
  | S754_infinity _ => Raise OverflowError
  | _ =>
      let whole := PyFloat.int x in
      let frac := (x - PyFloat.of_int whole)%float in
      let us :=
        match PyFloat.round (1000000 * frac)%float with
        | Some z => z
        | None => 0
        end in
      let d := whole * us_per_second + us in
      if valid_timedelta d then Ok d else Raise OverflowError
  end.

End Datetime.

Import Datetime.

(** ** Data model *)

(** [JobExecution]: one observed run of a job. *)
Module JobExecution.
Record t : Type := Build {
  id : string;
  job_id : string;
  timestamp : datetime;
  duration_ms : Z;
  retries : Z;
  status : string;
  compute_time_sec : float;
  job_type : string
}.
End JobExecution.

(** [PredictionResult]: what the generator emits for one job. *)
Module PredictionResult.
Record t : Type := Build {
  job_id : string;
  predicted_run_time_window : string;
  confidence_score : float;
  action : string;
  reasoning : string
}.
End PredictionResult.

(** The dictionaries that [_analyze_job_pattern] returns, one constructor
    per literal; the constructor stands for the ["type"] entry and carries
    the other entries of that literal. *)
Inductive Pattern : Type :=
| insufficient_data (confidence : float)
| cron (interval_seconds : float) (confidence : float) (next_predicted : datetime)
| bursty (confidence : float) (burst_indicators : bool)
| on_demand (avg_interval : float) (confidence : float) (variability : float).

(** [pattern["type"]] *)
Definition pattern_type (p : Pattern) : string :=
  match p with
  | insufficient_data _ => "insufficient_data"
  | cron _ _ _ => "cron"
  | bursty _ _ => "bursty"
  | on_demand _ _ _ => "on_demand"
  end.

(** [pattern["confidence"]] *)
Definition pattern_confidence (p : Pattern) : float :=
  match p with
  | insufficient_data c => c
  | cron _ c _ => c
  | bursty c _ => c
  | on_demand _ c _ => c
  end.

(** ** Sorting

    [list.sort] and [sorted] are stable and compare keys with [<] only.
    With [reverse=True] the list is reversed, sorted and reversed again, so
    that equal keys keep their original order. On keys that [<] orders
    totally (timestamps, floats other than NaN) the result of a stable sort
    is unique, and the insertion sort below computes it. *)
Section Sorting.
Context {A K : Type}.
Variable key : A -> K.
Variable lt : K -> K -> bool.

Fixpoint insert_by (x : A) (l : list A) : list A :=
  match l with
  | [] => [x]
  | y :: l' =>
      if lt (key y) (key x) then y :: insert_by x l' else x :: y :: l'
  end.

Definition sort_by (l : list A) : list A := fold_right insert_by [] l.

Definition sort_by_reverse (l : list A) : list A := rev (sort_by (rev l)).

(** [a] may stand before [b] in ascending order of keys. *)
Definition ascending (a b : A) : Prop := lt (key b) (key a) = false.
End Sorting.

(** ** The predictor *)

Section ColdStartPredictor.

(** [np.mean] and [np.std] on a list of floats. *)
Variable np_mean np_std : list float -> float.

Definition window_size : timedelta := Datetime.of_minutes 10.

(** The number of executions with
    [window_start <= e.timestamp <= window_end]. *)
Definition count_in_window (executions : list JobExecution.t)
    (window_start window_end : datetime) : Z :=
  Z.of_nat (List.length (filter
    (fun e => (window_start <=? JobExecution.timestamp e)
              && (JobExecution.timestamp e <=? window_end)) executions)).

(** [max] of a non-empty list of ints. *)
Definition list_max (l : list Z) : Z :=
  match l with
  | [] => 0
  | x :: l' => fold_left Z.max l' x
  end.

Definition _detect_burst_pattern (executions : list JobExecution.t)
    : result bool :=
  if (List.length executions <? 5)%nat then Ok false
  else
    time_windows <- mapM (fun exec =>
        let window_start := JobExecution.timestamp exec in
        window_end <- Datetime.add window_start window_size ;;
        Ok (count_in_window executions window_start window_end))
      executions ;;
    Ok (3 <=? list_max time_windows).

(** The intervals, in seconds, between consecutive executions. *)
Fixpoint intervals_of (executions : list JobExecution.t) : list float :=
  match executions with
  | a :: (b :: _) as rest =>
      Datetime.total_seconds
        (Datetime.sub (JobExecution.timestamp b) (JobExecution.timestamp a))
      :: intervals_of rest
  | _ => []
  end.

(** [executions[-1].timestamp], for a non-empty list. *)
Definition last_timestamp (executions : list JobExecution.t) : datetime :=
  match rev executions with
  | e :: _ => JobExecution.timestamp e
  | [] => 0
  end.

Definition _analyze_job_pattern (executions : list JobExecution.t)
    : result Pattern :=
  if (List.length executions <? 2)%nat then Ok (insufficient_data 0.1)
  else
    let intervals := intervals_of executions in
    match intervals with
    | [] => Ok (insufficient_data 0.1)
    | _ =>
        let avg_interval := np_mean intervals in
        let std_interval := np_std intervals in
        if (std_interval <? avg_interval * 0.1)%float
           && (3 <=? List.length executions)%nat
        then
          delta <- Datetime.of_seconds avg_interval ;;
          next_predicted <- Datetime.add (last_timestamp executions) delta ;;
          Ok (cron avg_interval 0.9 next_predicted)
        else
          is_burst <- _detect_burst_pattern executions ;;
          if is_burst then Ok (bursty 0.7 true)
          else
            Ok (on_demand avg_interval 0.4
                  (if (0 <? avg_interval)%float
                   then (std_interval / avg_interval)%float
                   else 1%float))
    end.

(** [jobs_by_id[job.job_id].append(job)] on a dictionary kept in
    insertion order. *)
Fixpoint group_append (job : JobExecution.t)
    (groups : list (string * list JobExecution.t))
    : list (string * list JobExecution.t) :=
  match groups with
  | [] => [(JobExecution.job_id job, [job])]
  | (k, js) :: rest =>
      if String.eqb k (JobExecution.job_id job)
      then (k, js ++ [job]) :: rest
      else (k, js) :: group_append job rest
  end.

Definition jobs_by_id (job_executions : list JobExecution.t)
    : list (string * list JobExecution.t) :=
  fold_left (fun groups job => group_append job groups) job_executions [].

(** [Counter([job.job_type for job in job_executions])] *)
Fixpoint counter_add (k : string) (c : list (string * Z))
    : list (string * Z) :=
  match c with
  | [] => [(k, 1)]
  | (k', n) :: rest =>
      if String.eqb k' k then (k', n + 1) :: rest
      else (k', n) :: counter_add k rest
  end.

Record Analysis : Type := {
  total_jobs : Z;
  job_types : list (string * Z);
  success_rate : float;
  patterns : list (string * Pattern)
}.

Definition analyze_job_history (job_executions : list JobExecution.t)
    : result Analysis :=
  let n := Z.of_nat (List.length job_executions) in
  let successes := Z.of_nat (List.length (filter
    (fun job => String.eqb (JobExecution.status job) "success")
    job_executions)) in
  pats <- mapM (fun '(job_id, executions) =>
      pattern <- _analyze_job_pattern
        (sort_by JobExecution.timestamp Z.ltb executions) ;;
      Ok (job_id, pattern))
    (jobs_by_id job_executions) ;;
  Ok {| total_jobs := n;
        job_types := fold_left (fun c job =>
                       counter_add (JobExecution.job_type job) c)
                       job_executions [];
        success_rate := match job_executions with
                        | [] => 0%float
                        | _ => PyFloat.int_truediv successes n
                        end;
        patterns := pats |}.

Definition _generate_prediction (job_id : string) (pattern : Pattern)
    (current_time : datetime) : option PredictionResult.t :=
  match pattern with
  | cron interval_seconds confidence next_run =>
      let time_diff :=
        Datetime.total_seconds (Datetime.sub next_run current_time) in
      if (0 <=? time_diff)%float && (time_diff <=? 300)%float then
        Some (PredictionResult.Build
          job_id
          (PyFloat.string_of_Z (PyFloat.int (time_diff / 60)%float) ++ ":"
           ++ PyFloat.format_02d (PyFloat.int (PyFloat.mod_ time_diff 60))
           ++ " minutes")%string
          confidence
          (if (0.7 <? confidence)%float then "prewarm" else "skip")
          ("Cron pattern detected with "
           ++ PyFloat.format_0f interval_seconds ++ "s intervals")%string)
      else None
  | bursty confidence _ =>
      if (0.6 <? confidence)%float then
        Some (PredictionResult.Build
          job_id
          "1-3 minutes"
          confidence
          "prewarm"
          "Burst pattern detected - high activity expected")
      else None
  | _ => None
  end.

(** The loop of [predict_next_jobs] over [analysis["patterns"].items()]. *)
Fixpoint collect_predictions (patterns : list (string * Pattern))
    (current_time : datetime) : list PredictionResult.t :=
  match patterns with
  | [] => []
  | (job_id, pattern) :: rest =>
      match _generate_prediction job_id pattern current_time with
      | Some prediction =>
          prediction :: collect_predictions rest current_time
      | None => collect_predictions rest current_time
      end
  end.

(** [sorted(predictions, key=lambda x: x.confidence_score, reverse=True)] *)
Definition rank_predictions (predictions : list PredictionResult.t)
    : list PredictionResult.t :=
  sort_by_reverse PredictionResult.confidence_score PrimFloat.ltb predictions.

(** [predict_next_jobs], on the executions that the query of the last
    seven days returned. *)
Definition predict_next_jobs (job_executions : list JobExecution.t)
    (current_time : datetime) : result (list PredictionResult.t) :=
  match job_executions with
  | [] => Ok []
  | _ =>
      analysis <- analyze_job_history job_executions ;;
      Ok (rank_predictions
            (collect_predictions (patterns analysis) current_time))
  end.

End ColdStartPredictor.

(** ** A reference instance of [np.mean] and [np.std]

    NumPy is not part of the repository, and the predictor is parameterized
    by its two functions. This instance follows their documentation:
    [np.mean] is the sum over the count and [np.std] is
    [sqrt(mean(abs(x - x.mean())**2))]; the sums accumulate from left to
    right. The theorems below hold for every [np_mean] and [np_std], or
    for every pair that computes its result from sums accumulated in any
    order ([mean_of_sum], [std_of_sum]); the instance evaluates the
    predictor on concrete groups, whose sums do not depend on that
    order. *)
Module Numpy.

Definition sum (l : list float) : float :=
  fold_left PrimFloat.add l 0%float.

Definition mean (l : list float) : float :=
  (sum l / PyFloat.of_int (Z.of_nat (List.length l)))%float.

Definition std (l : list float) : float :=
  let m := mean l in
  PrimFloat.sqrt
    (sum (map (fun x => ((x - m) * (x - m))%float) l)
     / PyFloat.of_int (Z.of_nat (List.length l)))%float.

End Numpy.

(** A job execution of which only the job and the instant matter. *)
Definition run (job_id : string) (timestamp : datetime) : JobExecution.t :=
  JobExecution.Build "" job_id timestamp 0 0 "success" 0%float "cron".

(** ** The properties under study, as predicates on the embedding *)

Section Criteria.

Variable np_mean np_std : list float -> float.

(** The test of the cron branch of [_analyze_job_pattern]. *)
Definition periodic_test (executions : list JobExecution.t) : bool :=
  let intervals := intervals_of executions in
  (np_std intervals <? np_mean intervals * 0.1)%float
  && (3 <=? List.length executions)%nat.

(** [executions[-1].timestamp + timedelta(seconds=avg_interval)] *)
Definition next_prediction (executions : list JobExecution.t)
    : result datetime :=
  delta <- Datetime.of_seconds (np_mean (intervals_of executions)) ;;
  Datetime.add (last_timestamp executions) delta.

(** The value of the ["variability"] entry. *)
Definition variability_of (executions : list JobExecution.t) : float :=
  let intervals := intervals_of executions in
  if (0 <? np_mean intervals)%float
  then (np_std intervals / np_mean intervals)%float
  else 1%float.

End Criteria.

(** Every ten-minute window that [_detect_burst_pattern] opens ends at a
    representable [datetime]; it opens one for each record of a group of
    five or more, and none for a smaller group. *)
Definition windows_in_range (executions : list JobExecution.t) : Prop :=
  (5 <= List.length executions)%nat ->
  Forall (fun e =>
    valid_datetime (JobExecution.timestamp e + window_size) = true) executions.

(** The burst criterion in the words of the specification: at least five
    records, and some ten-minute window anchored at a record's timestamp,
    both ends included, holds three or more of the records. *)
Definition burst_criterion (executions : list JobExecution.t) : Prop :=
  (5 <= List.length executions)%nat /\
  exists e, In e executions /\
    3 <= count_in_window executions (JobExecution.timestamp e)
           (JobExecution.timestamp e + window_size).

(** What [_detect_burst_pattern] computes when no window overflows. *)
Definition burst_test (executions : list JobExecution.t) : bool :=
  negb (List.length executions <? 5)%nat
  && (3 <=? list_max (map (fun e =>
        count_in_window executions (JobExecution.timestamp e)
          (JobExecution.timestamp e + window_size)) executions)).

(** The zeros and the finite floats: the values on which [int] is
    defined. *)
Definition SF_finite (x : spec_float) : bool :=
  match x with
  | S754_zero _ | S754_finite _ _ _ => true
  | _ => false
  end.

(** A confidence as the data model has it: a real number in [0,1]. *)
Definition unit_interval (c : float) : Prop :=
  (0 <=? c)%float = true /\ (c <=? 1)%float = true.

(** [a] may stand before [b] in a sequence of descending confidence. *)
Definition confidence_ge (a b : PredictionResult.t) : Prop :=
  (PredictionResult.confidence_score b
   <=? PredictionResult.confidence_score a)%float = true.

(** The predictions whose confidence compares equal to [c]. *)
Definition with_confidence (c : float) (l : list PredictionResult.t)
    : list PredictionResult.t :=
  filter (fun r => (PredictionResult.confidence_score r =? c)%float) l.

(** The group is in ascending order of timestamps. *)
Fixpoint sorted_ascending (executions : list JobExecution.t) : bool :=
  match executions with
  | a :: (b :: _) as rest =>
      (JobExecution.timestamp a <=? JobExecution.timestamp b)
      && sorted_ascending rest
  | _ => true
  end.

(** Every timestamp of the group is a [datetime]. *)
Definition valid_group (executions : list JobExecution.t) : bool :=
  forallb (fun e => valid_datetime (JobExecution.timestamp e)) executions.

(** ** The real value of a float, and statistics computed from sums

    NumPy computes [np.mean] as a sum of the elements over their count, and
    [np.std] as the square root of the mean of the squared deviations from
    the mean. Its sums are pairwise, in an order that depends on the length
    of the array and on the build. The predicates below say that much of a
    result and no more: the sum may be accumulated in any order and any
    grouping. They hold of the reference instance above
    ([Numpy_mean_of_sum], [Numpy_std_of_sum]). *)

(** [2^e] as a real number. *)
Definition bpow (e : Z) : R := powerRZ 2 e.

(** The real value of a finite binary value; 0 stands for the others. *)
Definition SF2R (x : spec_float) : R :=
  match x with
  | S754_finite s m e => (IZR (cond_Zopp s (Z.pos m)) * bpow e)%R
  | _ => 0%R
  end.

(** The real value of a float. *)
Definition Prim2R (x : float) : R := SF2R (Prim2SF x).

(** A positive finite float. *)
Definition positive_finite (x : float) : Prop :=
  exists m e, Prim2SF x = S754_finite false m e.

(** [summed l s]: [s] is a floating-point sum of the elements of [l],
    accumulated in some order and some grouping. *)
Inductive summed : list float -> float -> Prop :=
| summed_nil : summed [] 0%float
| summed_one x : summed [x] x
| summed_app l1 l2 s1 s2 :
    summed l1 s1 -> summed l2 s2 -> summed (l1 ++ l2) (s1 + s2)%float
| summed_perm l l' s : Permutation l l' -> summed l s -> summed l' s.

(** [mean] is [np.mean(l)]: a sum of the elements over their count. *)
Definition mean_of_sum (mean : float) (l : list float) : Prop :=
  exists s, summed l s
    /\ mean = (s / PyFloat.of_int (Z.of_nat (List.length l)))%float.

(** [std] is [np.std(l)]: the square root of a sum of the squared
    deviations from the mean over their count. *)
Definition std_of_sum (std : float) (l : list float) : Prop :=
  exists mu s, mean_of_sum mu l
    /\ summed (map (fun x => ((x - mu) * (x - mu))%float) l) s
    /\ std = PrimFloat.sqrt
               (s / PyFloat.of_int (Z.of_nat (List.length l)))%float.

(** ** Concrete groups *)

(** Midnight of the day with proleptic Gregorian ordinal [n]
    ([date.fromordinal(n)]); day 3652059 is 9999-12-31. *)
Definition midnight (n : Z) : datetime := (n - 1) * us_per_day.

(** [t] plus [s] whole seconds. *)
Definition plus_seconds (t : datetime) (s : Z) : datetime :=
  t + s * us_per_second.

(** 2021-01-01T00:00:00 *)
Definition t0 : datetime := midnight 737791.

(** Three runs 900 seconds apart. *)
Definition quarter_hourly : list JobExecution.t :=
  [run "etl" t0; run "etl" (plus_seconds t0 900);
   run "etl" (plus_seconds t0 1800)].

(** Two runs in one minute, a third five hours later, then a cluster of
    three runs within two minutes. *)
Definition clustered : list JobExecution.t :=
  [run "api" t0; run "api" (plus_seconds t0 60);
   run "api" (plus_seconds t0 18000); run "api" (plus_seconds t0 18060);
   run "api" (plus_seconds t0 18120)].

(** Three runs, one hour and then seven hours apart. *)
Definition scattered : list JobExecution.t :=
  [run "adhoc" t0; run "adhoc" (plus_seconds t0 3600);
   run "adhoc" (plus_seconds t0 28800)].

(** A single run. *)
Definition single : list JobExecution.t := [run "once" t0].

(** Three runs at the same instant. *)
Definition simultaneous : list JobExecution.t :=
  [run "dup" t0; run "dup" t0; run "dup" t0].

(** Four runs a tenth of a second apart. *)
Definition tenths : list JobExecution.t :=
  [run "tick" t0; run "tick" (t0 + 100000); run "tick" (t0 + 200000);
   run "tick" (t0 + 300000)].

(** Daily runs at midnight of 9999-12-29, 9999-12-30 and 9999-12-31. *)
Definition year_end_daily : list JobExecution.t :=
  [run "daily" (midnight 3652057); run "daily" (midnight 3652058);
   run "daily" (midnight 3652059)].

(** Hourly runs at 21:00, 22:00 and 23:00 of 9999-12-31. *)
Definition year_end_hourly : list JobExecution.t :=
  [run "hourly" (plus_seconds (midnight 3652059) 75600);
   run "hourly" (plus_seconds (midnight 3652059) 79200);
   run "hourly" (plus_seconds (midnight 3652059) 82800)].

(** Five runs at 9999-12-31T23:55:00. *)
Definition year_end_burst : list JobExecution.t :=
  let t := plus_seconds (midnight 3652059) 86100 in
  [run "rush" t; run "rush" t; run "rush" t; run "rush" t; run "rush" t].

(** The executions of three jobs as a query returns them, interleaved. *)
Definition history : list JobExecution.t :=
  [run "etl" t0; run "api" t0; run "adhoc" t0;
   run "api" (plus_seconds t0 60); run "etl" (plus_seconds t0 900);
   run "adhoc" (plus_seconds t0 3600); run "etl" (plus_seconds t0 1800);
   run "api" (plus_seconds t0 18000); run "api" (plus_seconds t0 18060);
   run "adhoc" (plus_seconds t0 28800); run "api" (plus_seconds t0 18120)].

(** Summaries of three jobs, as a mapping in insertion order. *)
Definition summaries : list (string * Pattern) :=
  [("api"%string, bursty 0.7 true);
   ("etl"%string, cron 900 0.9 (plus_seconds t0 2700));
   ("adhoc"%string, on_demand 14400 0.4 0.75);
   ("web"%string, bursty 0.7 true)].

(** ** Float comparisons

    The comparisons of binary64 values, read through their specification
    [SFcompare]. A float is not NaN exactly when it compares equal to
    itself. *)

Ltac cmp_cases :=
  repeat match goal with
  | |- context [Pos.compare_cont Eq ?a ?b] =>
      change (Pos.compare_cont Eq a b) with (Pos.compare a b)
  | H : context [Pos.compare_cont Eq ?a ?b] |- _ =>
      change (Pos.compare_cont Eq a b) with (Pos.compare a b) in H
  | |- context [Z.compare ?a ?b] =>
      destruct (Z.compare_spec a b); try subst
  | |- context [Pos.compare ?a ?b] =>
      destruct (Pos.compare_spec a b); try subst
  | H : context [Z.compare ?a ?b] |- _ =>
      destruct (Z.compare_spec a b); try subst
  | H : context [Pos.compare ?a ?b] |- _ =>
      destruct (Pos.compare_spec a b); try subst
  end.

Ltac sf_cases :=
  intros;
  repeat match goal with
  | x : spec_float |- _ => destruct x as [[]|[]| |[] ? ?]
  end;
  simpl in *; try discriminate; try reflexivity; try congruence;
  cmp_cases; simpl in *;
  try discriminate; try reflexivity; try congruence; try lia.

Module FloatOrder.

Lemma SFltb_asym x y : SFltb x y = true -> SFltb y x = false.
Proof. unfold SFltb, SFcompare. sf_cases. Qed.

Lemma SFltb_negtrans x y z :
  SFeqb x x = true -> SFeqb y y = true -> SFeqb z z = true ->
  SFltb x y = false -> SFltb y z = false -> SFltb x z = false.
Proof. unfold SFltb, SFeqb, SFcompare. sf_cases. Qed.

Lemma SFltb_total x y :
  SFeqb x x = true -> SFeqb y y = true ->
  SFltb x y = false -> SFleb y x = true.
Proof. unfold SFltb, SFeqb, SFleb, SFcompare. sf_cases. Qed.

Lemma SFltb_class x y c :
  SFltb x y = true -> SFeqb x c = true -> SFeqb y c = true -> False.
Proof. unfold SFeqb, SFltb, SFcompare. sf_cases. Qed.

Lemma SFleb_refl_r x y : SFleb x y = true -> SFeqb y y = true.
Proof. unfold SFeqb, SFleb, SFcompare. sf_cases. Qed.

Lemma SFeqb_ltb x y : SFeqb x y = true -> SFltb y x = false.
Proof. unfold SFeqb, SFltb, SFcompare. sf_cases. Qed.

Lemma ltb_asym (x y : float) : (x <? y)%float = true -> (y <? x)%float = false.
Proof. rewrite !ltb_spec. apply SFltb_asym. Qed.

Lemma ltb_negtrans (x y z : float) :
  (x =? x)%float = true -> (y =? y)%float = true -> (z =? z)%float = true ->
  (x <? y)%float = false -> (y <? z)%float = false -> (x <? z)%float = false.
Proof. rewrite !ltb_spec, !eqb_spec. apply SFltb_negtrans. Qed.

Lemma ltb_total (x y : float) :
  (x =? x)%float = true -> (y =? y)%float = true ->
  (x <? y)%float = false -> (y <=? x)%float = true.
Proof. rewrite !ltb_spec, !eqb_spec, leb_spec. apply SFltb_total. Qed.

Lemma ltb_class (x y c : float) :
  (x <? y)%float = true -> (x =? c)%float = true -> (y =? c)%float = true ->
  False.
Proof. rewrite !ltb_spec, !eqb_spec. apply SFltb_class. Qed.

Lemma leb_not_nan (x y : float) :
  (x <=? y)%float = true -> (y =? y)%float = true.
Proof. rewrite leb_spec, eqb_spec. apply SFleb_refl_r. Qed.

Lemma eqb_not_ltb (x y : float) :
  (x =? y)%float = true -> (y <? x)%float = false.
Proof. rewrite ltb_spec, eqb_spec. apply SFeqb_ltb. Qed.

End FloatOrder.

(** ** Rounding to binary64

    The rounding of [SpecFloat] on non-negative mantissas: how many digits
    it keeps, that its result is a valid float, and that the result is
    finite when the magnitude stays clear of the overflow threshold. With it,
    the two [int(...)] conversions of [_generate_prediction] are defined
    whenever its guard [0 <= time_diff <= 300] holds. *)

Lemma digits2_pos_size p : digits2_pos p = Pos.size p.
Proof. induction p; simpl; congruence. Qed.

Lemma Zdigits2_log2 m : 0 < m -> Zdigits2 m = Z.log2 m + 1.
Proof.
  destruct m as [|p|p]; try lia. intros _. simpl.
  rewrite digits2_pos_size. destruct p; simpl; lia.
Qed.

Lemma Zdigits2_nonneg m : 0 <= Zdigits2 m.
Proof. destruct m; simpl; lia. Qed.

Lemma Zdigits2_le a b : 0 <= a <= b -> Zdigits2 a <= Zdigits2 b.
Proof.
  intros [Ha Hab]. destruct (Z.eq_dec a 0) as [->|Hne].
  - apply Zdigits2_nonneg.
  - rewrite !Zdigits2_log2 by lia.
    pose proof (Z.log2_le_mono a b Hab). lia.
Qed.

Lemma Zdigits2_succ a : 0 <= a -> Zdigits2 (a + 1) <= Zdigits2 a + 1.
Proof.
  intros Ha. destruct (Z.eq_dec a 0) as [->|Hne]; [reflexivity|].
  rewrite !Zdigits2_log2 by lia.
  pose proof (Z.log2_succ_le a). unfold Z.succ in *. lia.
Qed.

Lemma Zdigits2_shiftl a n : 0 < a -> 0 <= n -> Zdigits2 (Z.shiftl a n) = Zdigits2 a + n.
Proof.
  intros Ha Hn.
  assert (0 < Z.shiftl a n) by (rewrite Z.shiftl_mul_pow2 by lia; nia).
  rewrite !Zdigits2_log2 by lia. rewrite Z.log2_shiftl by lia. lia.
Qed.

Lemma shr_1_spec mrs : 0 <= shr_m mrs ->
  0 <= shr_m (shr_1 mrs) /\ Zdigits2 (shr_m (shr_1 mrs)) = Z.max (Zdigits2 (shr_m mrs) - 1) 0.
Proof.
  destruct mrs as [m r s]. cbn [shr_m]. intros Hm.
  destruct m as [|[p|p|]|p]; cbn [shr_1 shr_m Zdigits2 digits2_pos];
    rewrite ?Pos2Z.inj_succ; lia.
Qed.

Lemma iter_shr_1_spec n : forall mrs, 0 <= shr_m mrs ->
  0 <= shr_m (iter_pos shr_1 n mrs)
  /\ Zdigits2 (shr_m (iter_pos shr_1 n mrs)) = Z.max (Zdigits2 (shr_m mrs) - Zpos n) 0.
Proof.
  induction n as [n IH|n IH|]; intros mrs Hm; simpl.
  - destruct (shr_1_spec mrs Hm) as [H1 D1].
    destruct (IH _ H1) as [H2 D2]. destruct (IH _ H2) as [H3 D3].
    split; [exact H3|]. rewrite D3, D2, D1. lia.
  - destruct (IH _ Hm) as [H2 D2]. destruct (IH _ H2) as [H3 D3].
    split; [exact H3|]. rewrite D3, D2. lia.
  - apply shr_1_spec, Hm.
Qed.


Lemma shr_m_of_loc m l : shr_m (shr_record_of_loc m l) = m.
Proof. destruct l as [|[]]; reflexivity. Qed.

(** [shr_fexp] on a non-negative mantissa. *)
Lemma shr_fexp_spec m e l :
  0 <= m ->
  let '(mrs, e') := shr_fexp prec emax m e l in
  0 <= shr_m mrs
  /\ e' = Z.max e (fexp prec emax (Zdigits2 m + e))
  /\ Zdigits2 (shr_m mrs) = Z.max (Zdigits2 m - (e' - e)) 0
  /\ (e' = e -> shr_m mrs = m).
Proof.
  intros Hm. unfold shr_fexp, shr.
  pose proof (Zdigits2_nonneg m) as Hd.
  destruct (fexp prec emax (Zdigits2 m + e) - e) as [|n|n] eqn:E.
  - rewrite shr_m_of_loc. repeat split; lia.
  - destruct (iter_shr_1_spec n (shr_record_of_loc m l)) as [H D].
    { now rewrite shr_m_of_loc. }
    rewrite shr_m_of_loc in D. repeat split; lia.
  - rewrite shr_m_of_loc. repeat split; lia.
Qed.

Lemma round_nearest_even_bounds m l :
  m <= round_nearest_even m l <= m + 1.
Proof.
  destruct l as [|[]]; simpl; try lia. destruct (Z.even m); lia.
Qed.

Lemma fexp_le a b : a <= b -> fexp prec emax a <= fexp prec emax b.
Proof. unfold fexp, SpecFloat.emin. lia. Qed.

Lemma binary_round_aux_valid sx mx ex lx :
  0 <= mx -> ex <= fexp prec emax (Zdigits2 mx + ex) ->
  Zdigits2 mx + ex <= 1023 ->
  let r := binary_round_aux prec emax sx mx ex lx in
  valid_binary r = true /\ SF_finite r = true.
Proof.
  intros Hm He Hd. unfold binary_round_aux.
  pose proof (shr_fexp_spec mx ex lx Hm) as H1.
  destruct (shr_fexp prec emax mx ex lx) as [mrs' e'].
  destruct H1 as (Hm' & He' & Hd' & _).
  pose proof (round_nearest_even_bounds (shr_m mrs') (loc_of_shr_record mrs')) as Hr.
  set (m1 := round_nearest_even (shr_m mrs') (loc_of_shr_record mrs')) in *.
  assert (Hm1 : 0 <= m1) by lia.
  pose proof (shr_fexp_spec m1 e' loc_Exact Hm1) as H2.
  destruct (shr_fexp prec emax m1 e' loc_Exact) as [mrs'' e''].
  destruct H2 as (Hm'' & He'' & Hd'' & Hsame).
  assert (Hlo : Zdigits2 (shr_m mrs') <= Zdigits2 m1)
    by (apply Zdigits2_le; lia).
  assert (Hhi : Zdigits2 m1 <= Zdigits2 (shr_m mrs') + 1).
  { eapply Z.le_trans; [apply Zdigits2_le|apply Zdigits2_succ]; lia. }
  destruct (shr_m mrs'') as [|p|p] eqn:Ep; try lia.
  - split; reflexivity.
  - assert (Hdp : Zdigits2 (Z.pos p) = Z.pos (digits2_pos p)) by reflexivity.
    assert (He971 : e'' <= 971).
    { unfold fexp, SpecFloat.emin, emax, prec in *. lia. }
    apply Z.leb_le in He971.
    change (Z.sub emax prec) with 971. rewrite He971.
    split; [|reflexivity]. cbn [valid_binary]. unfold bounded, canonical_mantissa.
    change (Z.sub emax prec) with 971.
    rewrite He971, andb_true_r. apply Z.eqb_eq.
    change (Z.pos (digits2_pos p)) with (Zdigits2 (Z.pos p)).
    apply Z.leb_le in He971.
    unfold fexp, SpecFloat.emin, emax, prec in *. lia.
Qed.

Lemma Zdigits2_pow2_le m k : 0 <= k -> 2 ^ k <= m -> k + 1 <= Zdigits2 m.
Proof.
  intros Hk H. assert (0 < m) by (pose proof (Z.pow_pos_nonneg 2 k); lia).
  rewrite Zdigits2_log2 by lia.
  pose proof (Z.log2_le_mono _ _ H) as L. rewrite Z.log2_pow2 in L by lia. lia.
Qed.

Lemma Zdigits2_lt_pow2 m : 0 <= m -> m < 2 ^ Zdigits2 m.
Proof.
  intros Hm. destruct (Z.eq_dec m 0) as [->|Hne]; [reflexivity|].
  rewrite Zdigits2_log2 by lia.
  pose proof (Z.log2_spec m). replace (Z.log2 m + 1) with (Z.succ (Z.log2 m)) by lia. lia.
Qed.

Lemma Zdigits2_ge_pow2 m : 0 < m -> 2 ^ (Zdigits2 m - 1) <= m.
Proof.
  intros Hm. rewrite Zdigits2_log2 by lia.
  replace (Z.log2 m + 1 - 1) with (Z.log2 m) by lia.
  apply Z.log2_spec. lia.
Qed.

(** The quotient of [SFdiv_core_binary] is fine enough for rounding. *)
Lemma SFdiv_core_binary_spec m1 e1 m2 e2 :
  0 < m1 -> 0 < m2 ->
  let '(q, e', _) := SFdiv_core_binary prec emax m1 e1 m2 e2 in
  0 <= q
  /\ e' <= fexp prec emax (Zdigits2 q + e')
  /\ Zdigits2 q + e' <= Zdigits2 m1 + e1 - e2.
Proof.
  intros H1 H2. unfold SFdiv_core_binary.
  set (e' := Z.min (fexp prec emax (Zdigits2 m1 + e1 - (Zdigits2 m2 + e2))) (e1 - e2)).
  set (s := e1 - e2 - e').
  assert (Hs : 0 <= s) by (unfold s, e'; lia).
  set (m' := match s with Z.pos _ => Z.shiftl m1 s | 0 => m1 | Z.neg _ => 0 end).
  assert (Hm' : m' = Z.shiftl m1 s).
  { unfold m'. destruct s; try lia; reflexivity. }
  assert (Hm'pos : 0 < m').
  { rewrite Hm', Z.shiftl_mul_pow2 by lia. pose proof (Z.pow_pos_nonneg 2 s). nia. }
  assert (Hd' : Zdigits2 m' = Zdigits2 m1 + s).
  { rewrite Hm'. now apply Zdigits2_shiftl. }
  pose proof (Z_div_mod m' m2 ltac:(lia)) as Hdm.
  destruct (Z.div_eucl m' m2) as [q r]. destruct Hdm as [Hq Hr].
  assert (Hq0 : 0 <= q) by nia.
  assert (Hqle : q <= m') by nia.
  split; [exact Hq0|].
  assert (Hlow : Zdigits2 m1 + s - Zdigits2 m2 <= Zdigits2 q).
  { pose proof (Zdigits2_nonneg q).
    destruct (Z_le_gt_dec (Zdigits2 m' - Zdigits2 m2) 0) as [Hle|Hgt]; [lia|].
    set (k := Zdigits2 m' - Zdigits2 m2 - 1).
    assert (Hk : 0 <= k) by (unfold k; lia).
    assert (2 ^ k <= q).
    { pose proof (Zdigits2_ge_pow2 m' Hm'pos) as Hge.
      pose proof (Zdigits2_lt_pow2 m2 ltac:(lia)) as Hlt.
      assert (Hpow : 2 ^ (Zdigits2 m' - 1) = 2 ^ k * 2 ^ Zdigits2 m2).
      { rewrite <- Z.pow_add_r by (pose proof (Zdigits2_nonneg m2); lia).
        f_equal. unfold k. lia. }
      pose proof (Z.pow_pos_nonneg 2 k ltac:(lia) Hk).
      assert (2 ^ k * m2 < m2 * q + r + 1) by nia.
      nia. }
    pose proof (Zdigits2_pow2_le q k Hk H0). unfold k in *. lia. }
  split.
  - eapply Z.le_trans; [apply Z.le_min_l|].
    apply fexp_le. unfold s in Hlow. fold e'. lia.
  - pose proof (Zdigits2_le q m' ltac:(lia)). fold e'. unfold s in *. lia.
Qed.

Lemma binary_round_aux_sign sx mx ex lx :
  match binary_round_aux prec emax sx mx ex lx with
  | S754_zero s | S754_finite s _ _ | S754_infinity s => s = sx
  | S754_nan => True
  end.
Proof.
  unfold binary_round_aux.
  destruct (shr_fexp prec emax mx ex lx) as [mrs' e'].
  destruct (shr_fexp prec emax _ e' loc_Exact) as [mrs'' e''].
  destruct (shr_m mrs''); auto.
  destruct (e'' <=? emax - prec); reflexivity.
Qed.

(** A valid finite float has at most 53 digits and an exponent in range. *)
Lemma valid_binary_bounds s m e :
  valid_binary (S754_finite s m e) = true ->
  Zdigits2 (Z.pos m) <= 53 /\ -1074 <= e <= 971.
Proof.
  cbn [valid_binary]. unfold bounded, canonical_mantissa.
  rewrite andb_true_iff, Z.eqb_eq, Z.leb_le.
  change (Z.pos (digits2_pos m)) with (Zdigits2 (Z.pos m)).
  unfold fexp, SpecFloat.emin, emax, prec. lia.
Qed.

(** The quotient of two finite floats is a valid zero or finite float when
    its magnitude stays clear of the overflow threshold. *)
Lemma SFdiv_finite sx mx ex sy my ey :
  Zdigits2 (Z.pos mx) + ex - ey <= 1023 ->
  let r := SFdiv prec emax (S754_finite sx mx ex) (S754_finite sy my ey) in
  valid_binary r = true /\ SF_finite r = true
  /\ match r with
     | S754_zero s | S754_finite s _ _ => s = xorb sx sy
     | _ => True
     end.
Proof.
  intros Hb. cbn [SFdiv].
  pose proof (SFdiv_core_binary_spec (Z.pos mx) ex (Z.pos my) ey
                ltac:(lia) ltac:(lia)) as H.
  destruct (SFdiv_core_binary prec emax (Z.pos mx) ex (Z.pos my) ey)
    as [[q e'] l].
  destruct H as (Hq & He & Hd).
  destruct (binary_round_aux_valid (xorb sx sy) q e' l Hq He ltac:(lia))
    as [Hv Hf].
  pose proof (binary_round_aux_sign (xorb sx sy) q e' l) as Hs.
  cbv zeta. split; [exact Hv|]. split; [exact Hf|].
  destruct (binary_round_aux prec emax (xorb sx sy) q e' l); auto.
Qed.

Lemma digits2_pos_iter_xO m d :
  Z.pos (digits2_pos (Pos.iter xO m d)) = Z.pos (digits2_pos m) + Z.pos d.
Proof.
  induction d as [|d IH] using Pos.peano_ind.
  - cbn [Pos.iter digits2_pos]. lia.
  - rewrite Pos.iter_succ. cbn [digits2_pos]. lia.
Qed.

(** [binary_round] on a mantissa whose magnitude stays clear of the
    overflow threshold gives a valid zero or finite float of the sign
    asked for. *)
Lemma binary_round_finite sx mx ex :
  Zdigits2 (Z.pos mx) + ex <= 1023 ->
  let r := binary_round prec emax sx mx ex in
  valid_binary r = true /\ SF_finite r = true
  /\ match r with
     | S754_zero s | S754_finite s _ _ => s = sx
     | _ => True
     end.
Proof.
  intros Hb. unfold binary_round, shl_align.
  set (ex' := fexp prec emax (Z.pos (digits2_pos mx) + ex)).
  assert (Hgoal : forall mz ez,
            Zdigits2 (Z.pos mz) + ez = Zdigits2 (Z.pos mx) + ex ->
            ez <= ex' ->
            let r := binary_round_aux prec emax sx (Z.pos mz) ez loc_Exact in
            valid_binary r = true /\ SF_finite r = true
            /\ match r with
               | S754_zero s | S754_finite s _ _ => s = sx
               | _ => True
               end).
  { intros mz ez Hd He.
    destruct (binary_round_aux_valid sx (Z.pos mz) ez loc_Exact) as [Hv Hf].
    - lia.
    - rewrite Hd. exact He.
    - lia.
    - pose proof (binary_round_aux_sign sx (Z.pos mz) ez loc_Exact) as Hs.
      cbv zeta. split; [exact Hv|]. split; [exact Hf|].
      destruct (binary_round_aux prec emax sx (Z.pos mz) ez loc_Exact); auto. }
  destruct (ex' - ex) as [|d|d] eqn:E.
  - apply Hgoal; [reflexivity|lia].
  - apply Hgoal; [reflexivity|lia].
  - apply Hgoal; [|lia].
    cbn [Zdigits2]. rewrite digits2_pos_iter_xO. lia.
Qed.

Lemma Prim2SF_300 : Prim2SF 300 = S754_finite false 5277655813324800 (-44).
Proof. vm_compute. reflexivity. Qed.

Lemma Prim2SF_60 : Prim2SF 60 = S754_finite false 8444249301319680 (-47).
Proof. vm_compute. reflexivity. Qed.

Lemma Prim2SF_0 : Prim2SF 0 = S754_zero false.
Proof. vm_compute. reflexivity. Qed.

(** A float in [0, 300] is a zero or a positive finite float below 2^9. *)
Lemma horizon_cases (x : float) :
  (0 <=? x)%float = true -> (x <=? 300)%float = true ->
  (exists s, Prim2SF x = S754_zero s)
  \/ (exists m e, Prim2SF x = S754_finite false m e
                  /\ Zdigits2 (Z.pos m) <= 53 /\ -1074 <= e <= -44).
Proof.
  rewrite !leb_spec, Prim2SF_0, Prim2SF_300.
  pose proof (Prim2SF_valid x) as Hv.
  destruct (Prim2SF x) as [s|s| |s m e]; try discriminate.
  - intros _ _. left. now exists s.
  - destruct s; discriminate.
  - intros H0 H300. right. exists m, e.
    destruct s; [discriminate|].
    split; [reflexivity|].
    destruct (valid_binary_bounds _ _ _ Hv) as [Hd He].
    split; [exact Hd|]. split; [lia|].
    unfold SFleb, SFcompare in H300.
    destruct (Z.compare_spec e (-44)); lia.
Qed.

Lemma SF_finite_to_int (x : float) :
  SF_finite (Prim2SF x) = true -> PyFloat.to_int x <> None.
Proof.
  unfold PyFloat.to_int. destruct (Prim2SF x); simpl; congruence.
Qed.

Lemma int_of_quotient_defined (x : float) :
  (0 <=? x)%float = true -> (x <=? 300)%float = true ->
  PyFloat.to_int (x / 60)%float <> None.
Proof.
  intros H0 H300. apply SF_finite_to_int.
  rewrite div_spec, Prim2SF_60.
  destruct (horizon_cases x H0 H300) as [[s ->]|(m & e & -> & Hd & He)].
  - reflexivity.
  - apply (SFdiv_finite false m e false 8444249301319680 (-47)). lia.
Qed.

Lemma SFeqb_refl_finite s m e :
  SFeqb (S754_finite s m e) (S754_finite s m e) = true.
Proof.
  unfold SFeqb, SFcompare. rewrite Z.compare_refl.
  change (Pos.compare_cont Eq m m) with (Pos.compare m m).
  rewrite Pos.compare_refl. destruct s; reflexivity.
Qed.

(** The remainder of a positive finite float by 60, before it is converted
    back to a primitive float. *)
Lemma remainder_by_60 m e :
  let e' := Z.min e (-47) in
  let r := Z.rem (Z.shiftl (Z.pos m) (e - e'))
                 (Z.shiftl 8444249301319680 (-47 - e')) in
  let s := binary_normalize prec emax r e' false in
  valid_binary s = true
  /\ (s = S754_zero false \/ exists m' e'', s = S754_finite false m' e'').
Proof.
  intros e' r s.
  assert (Hden : 0 < Z.shiftl 8444249301319680 (-47 - e')).
  { rewrite Z.shiftl_mul_pow2 by (unfold e'; lia).
    pose proof (Z.pow_pos_nonneg 2 (-47 - e')). unfold e' in *. lia. }
  assert (Hnum : 0 <= Z.shiftl (Z.pos m) (e - e')).
  { rewrite Z.shiftl_mul_pow2 by (unfold e'; lia).
    pose proof (Z.pow_pos_nonneg 2 (e - e')). unfold e' in *. nia. }
  assert (Hr : 0 <= r < Z.shiftl 8444249301319680 (-47 - e')).
  { unfold r. apply Z.rem_bound_pos; lia. }
  subst s. destruct r as [|p|p] eqn:Er; [split; [reflexivity|now left]| |lia].
  cbn [binary_normalize].
  destruct (binary_round_finite false p e') as (Hv & Hf & Hsg).
  - assert (H : Zdigits2 (Z.pos p)
                <= Zdigits2 (Z.shiftl 8444249301319680 (-47 - e'))).
    { apply Zdigits2_le. lia. }
    rewrite Zdigits2_shiftl in H by (unfold e'; lia).
    change (Zdigits2 8444249301319680) with 53 in H. lia.
  - split; [exact Hv|].
    destruct (binary_round prec emax false p e') as [z|z| |z m' e''];
      try discriminate; subst z.
    + now left.
    + right. now exists m', e''.
Qed.

Lemma int_of_remainder_defined (x : float) :
  (0 <=? x)%float = true -> (x <=? 300)%float = true ->
  PyFloat.to_int (PyFloat.mod_ x 60) <> None.
Proof.
  intros H0 H300. unfold PyFloat.mod_, PyFloat.fmod.
  rewrite Prim2SF_60.
  assert (Hzero : PyFloat.to_int (if get_sign 60 then neg_zero else zero)
                  <> None) by (vm_compute; discriminate).
  destruct (horizon_cases x H0 H300) as [[s Hx]|(m & e & Hx & Hd & He)];
    rewrite Hx.
  - rewrite eqb_spec, Hx, Prim2SF_0. exact Hzero.
  - cbv zeta. cbn [cond_Zopp].
    destruct (remainder_by_60 m e) as [Hv Hs]. cbv zeta in Hv, Hs.
    remember (binary_normalize prec emax _ _ false) as s eqn:Es in *.
    clear Es.
    pose proof (Prim2SF_SF2Prim s Hv) as Hps.
    rewrite eqb_spec, Hps, Prim2SF_0.
    destruct Hs as [->|(m' & e'' & ->)].
    + exact Hzero.
    + cbn [SFeqb SFcompare].
      unfold is_nan. rewrite eqb_spec, Hps, SFeqb_refl_finite.
      cbn [negb]. rewrite !ltb_spec, Hps, Prim2SF_0, Prim2SF_60.
      cbn [SFltb SFcompare xorb].
      apply SF_finite_to_int. now rewrite Hps.
Qed.

(** *** The horizon in whole microseconds

    [total_seconds] is a correctly rounded quotient by [10^6], so the float
    comparisons of the guard can be read back on the integer count of
    microseconds: below, the quotient is located on the grid of its binade
    and compared with the binary64 value of 300. *)

Lemma shr_1_value mrs : 0 <= shr_m mrs -> shr_m (shr_1 mrs) = shr_m mrs / 2.
Proof.
  destruct mrs as [m r s]. cbn [shr_m]. intros Hm.
  destruct m as [|[p|p|]|p]; cbn [shr_1 shr_m]; try lia.
  - reflexivity.
  - rewrite Pos2Z.inj_xI. apply Z.div_unique with 1; lia.
  - rewrite Pos2Z.inj_xO. apply Z.div_unique with 0; lia.
  - reflexivity.
Qed.

Lemma iter_shr_1_value n : forall mrs, 0 <= shr_m mrs ->
  shr_m (iter_pos shr_1 n mrs) = shr_m mrs / 2 ^ Z.pos n.
Proof.
  assert (Hpos : forall k, 0 < 2 ^ Z.pos k)
    by (intros k; apply Z.pow_pos_nonneg; lia).
  induction n as [n IH|n IH|]; intros mrs Hm; cbn [iter_pos].
  - pose proof (shr_1_spec mrs Hm) as [H1 _].
    pose proof (iter_shr_1_spec n _ H1) as [H2 _].
    rewrite IH, IH, shr_1_value by assumption.
    assert (E : 2 ^ Z.pos n~1 = 2 * 2 ^ Z.pos n * 2 ^ Z.pos n).
    { rewrite (Pos2Z.inj_xI n), Z.pow_add_r, Z.pow_1_r by lia.
      replace (2 * Z.pos n) with (Z.pos n + Z.pos n) by lia.
      rewrite Z.pow_add_r by lia. lia. }
    pose proof (Hpos n).
    rewrite E, !Z.div_div by lia. f_equal. lia.
  - pose proof (iter_shr_1_spec n _ Hm) as [H2 _].
    rewrite IH, IH by assumption.
    assert (E : 2 ^ Z.pos n~0 = 2 ^ Z.pos n * 2 ^ Z.pos n).
    { rewrite (Pos2Z.inj_xO n).
      replace (2 * Z.pos n) with (Z.pos n + Z.pos n) by lia.
      now rewrite Z.pow_add_r by lia. }
    pose proof (Hpos n).
    rewrite E, !Z.div_div by lia. reflexivity.
  - rewrite Z.pow_1_r. now apply shr_1_value.
Qed.

Lemma shr_fexp_value m e l :
  0 <= m ->
  let '(mrs, e') := shr_fexp prec emax m e l in
  e' = Z.max e (fexp prec emax (Zdigits2 m + e))
  /\ shr_m mrs = m / 2 ^ (e' - e).
Proof.
  intros Hm. unfold shr_fexp, shr.
  destruct (fexp prec emax (Zdigits2 m + e) - e) as [|n|n] eqn:E.
  - rewrite shr_m_of_loc. split; [lia|].
    replace (e - e) with 0 by lia. now rewrite Z.div_1_r.
  - rewrite iter_shr_1_value by (now rewrite shr_m_of_loc).
    rewrite shr_m_of_loc. split; [lia|]. f_equal. f_equal. lia.
  - rewrite shr_m_of_loc. split; [lia|].
    replace (e - e) with 0 by lia. now rewrite Z.div_1_r.
Qed.

(** Rounding a mantissa of at least 53 digits in the normal range: the
    result is finite, has 53 digits, and is the mantissa cut to the
    exponent [e1] of its binade, or that plus one unit in the last place. *)
Lemma binary_round_aux_normal sx mx ex lx :
  let e1 := Zdigits2 mx + ex - 53 in
  0 < mx -> ex <= e1 -> -1074 <= e1 -> e1 < 971 ->
  exists m e,
    binary_round_aux prec emax sx mx ex lx = S754_finite sx m e
    /\ Zdigits2 (Z.pos m) = 53
    /\ e1 <= e
    /\ (Z.pos m * 2 ^ (e - e1) = mx / 2 ^ (e1 - ex)
        \/ Z.pos m * 2 ^ (e - e1) = mx / 2 ^ (e1 - ex) + 1).
Proof.
  intros e1 Hm He Hlo Hhi. unfold binary_round_aux.
  pose proof (shr_fexp_spec mx ex lx ltac:(lia)) as H1.
  pose proof (shr_fexp_value mx ex lx ltac:(lia)) as V1.
  destruct (shr_fexp prec emax mx ex lx) as [mrs' e'].
  destruct H1 as (Hm' & He' & Hd' & _). destruct V1 as [_ V1].
  assert (Ee' : e' = e1).
  { unfold fexp, SpecFloat.emin, emax, prec in He'. lia. }
  pose proof (round_nearest_even_bounds (shr_m mrs') (loc_of_shr_record mrs')) as Hr.
  set (m1 := round_nearest_even (shr_m mrs') (loc_of_shr_record mrs')) in *.
  assert (Hd53 : Zdigits2 (shr_m mrs') = 53) by lia.
  assert (Hm'pos : 0 < shr_m mrs').
  { destruct (shr_m mrs'); try lia. discriminate. }
  assert (Hlo1 : Zdigits2 (shr_m mrs') <= Zdigits2 m1)
    by (apply Zdigits2_le; lia).
  assert (Hhi1 : Zdigits2 m1 <= Zdigits2 (shr_m mrs') + 1).
  { eapply Z.le_trans; [apply Zdigits2_le|apply Zdigits2_succ]; lia. }
  pose proof (shr_fexp_spec m1 e' loc_Exact ltac:(lia)) as H2.
  pose proof (shr_fexp_value m1 e' loc_Exact ltac:(lia)) as V2.
  destruct (shr_fexp prec emax m1 e' loc_Exact) as [mrs'' e''].
  destruct H2 as (Hm'' & He'' & Hd'' & Hsame). destruct V2 as [_ V2].
  assert (Ee'' : e'' = e1 + (Zdigits2 m1 - 53)).
  { unfold fexp, SpecFloat.emin, emax, prec in He''. lia. }
  assert (Hd53' : Zdigits2 (shr_m mrs'') = 53) by lia.
  destruct (shr_m mrs'') as [|p|p] eqn:Ep; try discriminate; try lia.
  assert (He971 : (e'' <=? emax - prec) = true).
  { apply Z.leb_le. unfold emax, prec. lia. }
  rewrite He971. exists p, e''. split; [reflexivity|].
  split; [exact Hd53'|]. split; [lia|].
  assert (Hval : Z.pos p * 2 ^ (e'' - e1) = m1).
  { destruct (Z.eq_dec (Zdigits2 m1) 53) as [E53|N53].
    - replace (e'' - e1) with 0 by lia. replace (e'' - e') with 0 in V2 by lia.
      rewrite Z.div_1_r in V2. rewrite V2. simpl. lia.
    - assert (E54 : Zdigits2 m1 = 54) by lia.
      replace (e'' - e1) with 1 by lia. replace (e'' - e') with 1 in V2 by lia.
      assert (Hm1 : m1 = 2 ^ 53).
      { pose proof (Zdigits2_lt_pow2 (shr_m mrs') ltac:(lia)) as Hlt.
        rewrite Hd53 in Hlt.
        pose proof (Zdigits2_ge_pow2 m1 ltac:(lia)) as Hge.
        rewrite E54 in Hge. change (54 - 1) with 53 in Hge. lia. }
      rewrite V2, Hm1. reflexivity. }
  rewrite Ee' in V1. rewrite Hval, <- V1. unfold m1 in *. lia.
Qed.

Lemma shift_numerator m s :
  0 <= s ->
  match s with Z.pos _ => Z.shiftl m s | 0 => m | Z.neg _ => 0 end
  = m * 2 ^ s.
Proof.
  intros Hs. destruct s as [|k|k].
  - rewrite Z.pow_0_r. lia.
  - now rewrite Z.shiftl_mul_pow2 by lia.
  - lia.
Qed.

(** The division of a positive count of microseconds by 10^6. On the grid
    [2^e1] of its binade the quotient is the floor of the exact quotient, or
    one unit more. *)
Lemma truediv_us_spec (sx : bool) (p : positive) :
  Zdigits2 (Z.pos p) <= 62 ->
  exists m e e1,
    SFdiv prec emax (S754_finite sx p 0) (S754_finite false 1000000 0)
    = S754_finite sx m e
    /\ Zdigits2 (Z.pos m) = 53
    /\ e1 <= e /\ e1 <= -10
    /\ (Z.pos m * 2 ^ (e - e1) = (Z.pos p * 2 ^ (- e1)) / 1000000
        \/ Z.pos m * 2 ^ (e - e1) = (Z.pos p * 2 ^ (- e1)) / 1000000 + 1).
Proof.
  intros Hd. cbn [SFdiv]. rewrite xorb_false_r.
  pose proof (Zdigits2_nonneg (Z.pos p)) as Hd0.
  assert (Hd1 : 1 <= Zdigits2 (Z.pos p)) by (cbn [Zdigits2]; lia).
  unfold SFdiv_core_binary.
  change (Zdigits2 1000000) with 20.
  set (d1 := Zdigits2 (Z.pos p)) in *.
  assert (Ee' : Z.min (fexp prec emax (d1 + 0 - (20 + 0))) (0 - 0) = d1 - 73).
  { unfold fexp, SpecFloat.emin, emax, prec. lia. }
  rewrite Ee'.
  set (s := 0 - 0 - (d1 - 73)).
  assert (Hs : 0 <= s) by (unfold s; lia).
  set (m' := match s with Z.pos _ => Z.shiftl (Z.pos p) s | 0 => Z.pos p
                        | Z.neg _ => 0 end).
  assert (Hm' : m' = Z.pos p * 2 ^ s) by (apply shift_numerator, Hs).
  assert (Hps : 0 < 2 ^ s) by (apply Z.pow_pos_nonneg; lia).
  assert (Hlo : 2 ^ 72 <= m').
  { rewrite Hm'. pose proof (Zdigits2_ge_pow2 (Z.pos p) ltac:(lia)) as H.
    fold d1 in H.
    replace 72 with ((d1 - 1) + s) by (unfold s; lia).
    rewrite Z.pow_add_r by lia. nia. }
  assert (Hhi : m' < 2 ^ 73).
  { rewrite Hm'. pose proof (Zdigits2_lt_pow2 (Z.pos p) ltac:(lia)) as H.
    fold d1 in H.
    replace 73 with (d1 + s) by (unfold s; lia).
    rewrite Z.pow_add_r by lia. nia. }
  pose proof (Z_div_mod m' 1000000 ltac:(lia)) as Hdm.
  assert (Eq : fst (Z.div_eucl m' 1000000) = m' / 1000000) by reflexivity.
  destruct (Z.div_eucl m' 1000000) as [q r]. destruct Hdm as [Hq Hr].
  cbn [fst] in Eq.
  assert (Hq52 : 2 ^ 52 < q) by (change (2 ^ 72) with (2 ^ 52 * 1048576) in Hlo; lia).
  assert (Hq54 : q < 2 ^ 54) by (change (2 ^ 73) with (2 ^ 54 * 524288) in Hhi; lia).
  assert (Hdq : 53 <= Zdigits2 q <= 54).
  { split.
    - apply (Zdigits2_pow2_le q 52); lia.
    - destruct (Z_le_gt_dec (Zdigits2 q) 54) as [H|H]; [exact H|].
      pose proof (Zdigits2_ge_pow2 q ltac:(lia)) as Hge.
      assert (2 ^ 54 <= 2 ^ (Zdigits2 q - 1)) by (apply Z.pow_le_mono_r; lia).
      lia. }
  set (l := new_location 1000000 r).
  destruct (binary_round_aux_normal sx q (d1 - 73) l)
    as (m & e & Hres & Hm53 & He & Hval); try lia.
  set (e1 := Zdigits2 q + (d1 - 73) - 53) in *.
  exists m, e, e1. split; [exact Hres|]. split; [exact Hm53|].
  split; [exact He|]. split; [unfold e1; lia|].
  assert (Hdiv : q / 2 ^ (e1 - (d1 - 73)) = Z.pos p * 2 ^ (- e1) / 1000000).
  { rewrite Eq, Hm'.
    assert (Hn : 0 <= e1 - (d1 - 73)) by (unfold e1; lia).
    assert (Hpn : 0 < 2 ^ (e1 - (d1 - 73))) by (apply Z.pow_pos_nonneg; lia).
    rewrite Z.div_div by lia.
    replace s with (- e1 + (e1 - (d1 - 73))) by (unfold s; lia).
    rewrite Z.pow_add_r by (unfold e1; lia).
    rewrite Z.mul_assoc. rewrite Z.div_mul_cancel_r by lia. reflexivity. }
  rewrite <- Hdiv. exact Hval.
Qed.

Lemma pow2_split a b : 0 <= a -> 0 <= b -> 2 ^ (a + b) = 2 ^ a * 2 ^ b.
Proof. intros. now rewrite Z.pow_add_r. Qed.

Lemma horizon_arith (d m e e1 : Z) :
  0 < d -> 2 ^ 52 <= m < 2 ^ 53 -> e1 <= e -> e1 <= -10 ->
  (m * 2 ^ (e - e1) = d * 2 ^ (- e1) / 1000000
   \/ m * 2 ^ (e - e1) = d * 2 ^ (- e1) / 1000000 + 1) ->
  d <> 300000000 ->
  (e < -44 \/ (e = -44 /\ m <= 300 * 2 ^ 44)) <-> d < 300000000.
Proof.
  intros Hd Hm He He1 Hval Hne.
  set (P := 2 ^ (- e1)) in *. set (Q := 2 ^ (e - e1)) in *.
  set (F := d * P / 1000000) in *.
  assert (HP : 0 < P) by (apply Z.pow_pos_nonneg; lia).
  assert (HQ : 0 < Q) by (apply Z.pow_pos_nonneg; lia).
  assert (HF : 1000000 * F <= d * P < 1000000 * F + 1000000).
  { unfold F. pose proof (Z.div_mod (d * P) 1000000 ltac:(lia)).
    pose proof (Z.mod_pos_bound (d * P) 1000000 ltac:(lia)). lia. }
  (* the grid of the result against the grid of 300 *)
  assert (Hhigh : -43 <= e -> P <= Q * 2 ^ 43).
  { intros H. destruct (Z_le_gt_dec e 0) as [H0|H0].
    - assert (E : P = Q * 2 ^ (- e)).
      { unfold P, Q. rewrite <- pow2_split by lia. f_equal. lia. }
      rewrite E. apply Z.mul_le_mono_nonneg_l; [lia|].
      apply Z.pow_le_mono_r; lia.
    - assert (E : Q = P * 2 ^ e).
      { unfold P, Q. rewrite <- pow2_split by lia. f_equal. lia. }
      assert (0 < 2 ^ e) by (apply Z.pow_pos_nonneg; lia).
      assert (0 < 2 ^ 43) by reflexivity. nia. }
  assert (Heq : e = -44 -> P = Q * 2 ^ 44).
  { intros ->. unfold P, Q. rewrite <- pow2_split by lia. f_equal. lia. }
  assert (Hlow : e <= -45 -> Q * 2 ^ 45 <= P).
  { intros H. assert (E : P = Q * 2 ^ (- e)).
    { unfold P, Q. rewrite <- pow2_split by lia. f_equal. lia. }
    rewrite E. apply Z.mul_le_mono_nonneg_l; [lia|].
    apply Z.pow_le_mono_r; lia. }
  change (2 ^ 52) with 4503599627370496 in *.
  change (2 ^ 53) with 9007199254740992 in *.
  change (2 ^ 43) with 8796093022208 in *.
  change (2 ^ 44) with 17592186044416 in *.
  change (2 ^ 45) with 35184372088832 in *.
  split.
  - intros Hle.
    destruct (Z_lt_ge_dec d 300000000) as [Hlt|Hge]; [exact Hlt|exfalso].
    assert (Hd1 : 300000001 <= d) by lia.
    assert (HV : m * Q <= 300 * P).
    { destruct Hle as [Hlt|[-> Hm300]].
      - specialize (Hlow ltac:(lia)). nia.
      - specialize (Heq eq_refl). nia. }
    assert (HPM : 1000000 <= P).
    { assert (2 ^ 20 <= P).
      { unfold P. apply Z.pow_le_mono_r; lia. }
      change (2 ^ 20) with 1048576 in *. lia. }
    assert (300 * P + 1 <= F) by nia.
    lia.
  - intros Hlt.
    assert (HFP : F < 300 * P) by nia.
    assert (HV : m * Q <= 300 * P) by lia.
    destruct (Z_lt_ge_dec e (-44)) as [H|H]; [left; exact H|right].
    destruct (Z.eq_dec e (-44)) as [E|N].
    + split; [exact E|]. specialize (Heq E). nia.
    + exfalso. specialize (Hhigh ltac:(lia)). nia.
Qed.

Lemma Zdigits2_pos_bound p k : 0 <= k -> Z.pos p < 2 ^ k -> Zdigits2 (Z.pos p) <= k.
Proof.
  intros Hk H. destruct (Z_le_gt_dec (Zdigits2 (Z.pos p)) k) as [L|G]; [exact L|].
  pose proof (Zdigits2_ge_pow2 (Z.pos p) ltac:(lia)) as Hge.
  assert (2 ^ k <= 2 ^ (Zdigits2 (Z.pos p) - 1)) by (apply Z.pow_le_mono_r; lia).
  lia.
Qed.

(** [total_seconds], read through the specification of binary64. *)
Lemma Prim2SF_total_seconds (d : Z) :
  - 2 ^ 62 < d < 2 ^ 62 ->
  Prim2SF (Datetime.total_seconds d)
  = SFdiv prec emax (PyFloat.Z2SF d) (PyFloat.Z2SF us_per_second).
Proof.
  intros Hd. unfold Datetime.total_seconds, PyFloat.int_truediv.
  apply Prim2SF_SF2Prim.
  destruct d as [|p|p]; [reflexivity| |];
    apply (SFdiv_finite _ p 0 false 1000000 0);
    pose proof (Zdigits2_pos_bound p 62 ltac:(lia) ltac:(lia)); lia.
Qed.

Lemma SFleb_finite_pos (m n : positive) (e e' : Z) :
  SFleb (S754_finite false m e) (S754_finite false n e') = true
  <-> e < e' \/ (e = e' /\ Z.pos m <= Z.pos n).
Proof.
  cbn [SFleb SFcompare].
  destruct (Z.compare_spec e e') as [E|L|G].
  - pose proof (Pos.compare_spec m n) as Hc.
    unfold Pos.compare in Hc.
    destruct Hc as [Hc|Hc|Hc].
    + split; [intros _|reflexivity]. right. split; [exact E|].
      rewrite Hc. apply Z.le_refl.
    + split; [intros _|reflexivity]. right. split; [exact E|].
      apply Pos2Z.pos_le_pos, Pos.lt_le_incl, Hc.
    + split; [discriminate|]. intros [H|[_ H]]; exfalso.
      * rewrite E in H. exact (Z.lt_irrefl _ H).
      * apply Pos2Z.pos_lt_pos in Hc.
        exact (Z.lt_irrefl _ (Z.lt_le_trans _ _ _ Hc H)).
  - split; [intros _|reflexivity]. left. exact L.
  - split; [discriminate|]. intros [H|[H _]]; exfalso.
    + exact (Z.lt_irrefl _ (Z.lt_trans _ _ _ G H)).
    + rewrite H in G. exact (Z.lt_irrefl _ G).
Qed.

Lemma SFdiv_300000000 :
  SFdiv prec emax (S754_finite false 300000000 0) (S754_finite false 1000000 0)
  = S754_finite false 5277655813324800 (-44).
Proof. vm_compute. reflexivity. Qed.

(** The quotient of a positive difference by [10^6], against 300. *)
Lemma SFleb_truediv_300 (p : positive) :
  Z.pos p < 2 ^ 62 ->
  SFleb (S754_zero false)
        (SFdiv prec emax (S754_finite false p 0) (S754_finite false 1000000 0))
  && SFleb (SFdiv prec emax (S754_finite false p 0) (S754_finite false 1000000 0))
           (S754_finite false 5277655813324800 (-44)) = true
  <-> Z.pos p <= 300000000.
Proof.
  intros Hd.
  destruct (Z.eq_dec (Z.pos p) 300000000) as [E|N].
  { injection E as ->. rewrite SFdiv_300000000. split; [intros _|reflexivity].
    apply Z.le_refl. }
  destruct (truediv_us_spec false p) as (m & e & e1 & Hres & Hm53 & He & He1 & Hval).
  { apply Zdigits2_pos_bound; [discriminate|exact Hd]. }
  rewrite Hres.
  change (SFleb (S754_zero false) (S754_finite false m e)) with true.
  rewrite andb_true_l, SFleb_finite_pos.
  assert (Hmpos : 0 < Z.pos m) by reflexivity.
  pose proof (Zdigits2_ge_pow2 (Z.pos m) Hmpos) as Hge.
  pose proof (Zdigits2_lt_pow2 (Z.pos m) (Pos2Z.is_nonneg m)) as Hlt.
  rewrite Hm53 in Hge, Hlt. change (53 - 1) with 52 in Hge.
  assert (Hpos : 0 < Z.pos p) by reflexivity.
  pose proof (horizon_arith (Z.pos p) (Z.pos m) e e1 Hpos (conj Hge Hlt)
                He He1 Hval N) as Har.
  change (300 * 2 ^ 44) with 5277655813324800 in Har.
  rewrite Har. split.
  - apply Z.lt_le_incl.
  - intros H. apply Z.le_neq. split; assumption.
Qed.

(** The guard of the cron branch in whole microseconds: the rounding of
    [total_seconds] moves no difference across either end of the horizon. *)
Lemma total_seconds_horizon (d : Z) :
  - 2 ^ 62 < d < 2 ^ 62 ->
  ((0 <=? Datetime.total_seconds d)%float
   && (Datetime.total_seconds d <=? 300)%float = true
   <-> 0 <= d <= 300 * us_per_second).
Proof.
  intros Hd. rewrite !leb_spec, Prim2SF_total_seconds, Prim2SF_0, Prim2SF_300
    by exact Hd.
  change (300 * us_per_second) with 300000000.
  change (PyFloat.Z2SF us_per_second) with (S754_finite false 1000000 0).
  destruct d as [|p|p].
  - split; [intros _; split; discriminate|reflexivity].
  - change (PyFloat.Z2SF (Z.pos p)) with (S754_finite false p 0).
    rewrite SFleb_truediv_300 by apply Hd.
    split; [intros H; split; [apply Pos2Z.is_nonneg|exact H]|intros [_ H]; exact H].
  - destruct (truediv_us_spec true p) as (m & e & e1 & Hres & _).
    { apply Zdigits2_pos_bound; [discriminate|].
      apply Z.opp_lt_mono. rewrite Pos2Z.opp_pos. apply Hd. }
    change (PyFloat.Z2SF (Z.neg p)) with (S754_finite true p 0).
    rewrite Hres. split; [discriminate|].
    intros [H _]. exfalso. apply H. reflexivity.
Qed.

(** Two datetimes of Python's range differ by far less than [2^62]
    microseconds. *)
Lemma valid_datetime_sub_range (a b : datetime) :
  valid_datetime a = true -> valid_datetime b = true ->
  - 2 ^ 62 < Datetime.sub a b < 2 ^ 62.
Proof.
  unfold valid_datetime, Datetime.sub. intros Ha Hb.
  apply andb_true_iff in Ha, Hb.
  destruct Ha as [Ha0 Ha1], Hb as [Hb0 Hb1].
  apply Z.leb_le in Ha0, Ha1, Hb0, Hb1.
  change max_datetime with 315537897599999999 in Ha1, Hb1.
  change (2 ^ 62) with 4611686018427387904.
  lia.
Qed.

(** ** Stable sorting by a key *)

Section SortingFacts.
Context {A K : Type}.
Variable key : A -> K.
Variable lt : K -> K -> bool.
Variable good : K -> Prop.

Hypothesis lt_asym : forall a b, lt a b = true -> lt b a = false.
Hypothesis lt_negtrans : forall a b c,
  good a -> good b -> good c ->
  lt a b = false -> lt b c = false -> lt a c = false.

Lemma insert_by_perm x l : Permutation (x :: l) (insert_by key lt x l).
Proof.
  induction l as [|y l IH]; simpl.
  - apply Permutation_refl.
  - destruct (lt (key y) (key x)).
    + eapply perm_trans; [apply perm_swap|]. now apply perm_skip.
    + apply Permutation_refl.
Qed.

Lemma sort_by_perm l : Permutation l (sort_by key lt l).
Proof.
  induction l as [|x l IH]; simpl.
  - apply perm_nil.
  - eapply perm_trans; [apply perm_skip, IH|]. apply insert_by_perm.
Qed.

Lemma sort_by_reverse_perm l : Permutation l (sort_by_reverse key lt l).
Proof.
  unfold sort_by_reverse.
  eapply perm_trans; [apply Permutation_rev|].
  eapply perm_trans; [apply sort_by_perm|]. apply Permutation_rev.
Qed.

Lemma insert_by_sorted x l :
  good (key x) -> Forall (fun y => good (key y)) l ->
  StronglySorted (ascending key lt) l ->
  StronglySorted (ascending key lt) (insert_by key lt x l).
Proof.
  intros Hx Hg Hs. induction Hs as [|y l Hs IH Hy]; simpl.
  - constructor; constructor.
  - inversion Hg as [|? ? Hgy Hgl]; subst.
    destruct (lt (key y) (key x)) eqn:E.
    + constructor; [now apply IH|].
      eapply Permutation_Forall; [apply insert_by_perm|].
      constructor; [|exact Hy].
      unfold ascending. now apply lt_asym.
    + constructor; [now constructor|].
      constructor; [exact E|].
      rewrite Forall_forall in Hy, Hgl |- *. intros z Hz.
      unfold ascending. apply lt_negtrans with (b := key y); auto.
      apply (Hy z Hz).
Qed.

Lemma sort_by_sorted l :
  Forall (fun y => good (key y)) l ->
  StronglySorted (ascending key lt) (sort_by key lt l).
Proof.
  induction 1 as [|x l Hx Hl IH]; simpl.
  - constructor.
  - apply insert_by_sorted; auto.
    eapply Permutation_Forall; [apply sort_by_perm|exact Hl].
Qed.

Lemma StronglySorted_snoc (R : A -> A -> Prop) l x :
  StronglySorted R l -> Forall (fun y => R y x) l ->
  StronglySorted R (l ++ [x]).
Proof.
  induction 1 as [|y l Hs IH Hy]; intros Hx; simpl.
  - constructor; constructor.
  - inversion Hx; subst. constructor; [now apply IH|].
    apply Forall_app. split; [exact Hy|]. now constructor.
Qed.

Lemma StronglySorted_rev (R : A -> A -> Prop) l :
  StronglySorted R l -> StronglySorted (fun a b => R b a) (rev l).
Proof.
  induction 1 as [|y l Hs IH Hy]; simpl.
  - constructor.
  - apply StronglySorted_snoc; [exact IH|].
    apply Forall_rev. exact Hy.
Qed.

Lemma sort_by_reverse_sorted l :
  Forall (fun y => good (key y)) l ->
  StronglySorted (fun a b => ascending key lt b a) (sort_by_reverse key lt l).
Proof.
  intros Hl. unfold sort_by_reverse.
  apply StronglySorted_rev, sort_by_sorted.
  now apply Forall_rev.
Qed.

(** A class of keys no two of which are ordered by [lt]: sorting keeps
    the members of the class in the order they had. *)
Variable cls : K -> bool.
Hypothesis cls_unordered : forall a b,
  lt a b = true -> cls a = true -> cls b = true -> False.

Lemma insert_by_filter x l :
  filter (fun a => cls (key a)) (insert_by key lt x l)
  = filter (fun a => cls (key a)) (x :: l).
Proof.
  induction l as [|y l IH]; simpl; [reflexivity|].
  destruct (lt (key y) (key x)) eqn:E; [|reflexivity].
  simpl. rewrite IH. simpl.
  destruct (cls (key x)) eqn:Ex, (cls (key y)) eqn:Ey; try reflexivity.
  exfalso. eapply cls_unordered; eauto.
Qed.

Lemma sort_by_filter l :
  filter (fun a => cls (key a)) (sort_by key lt l)
  = filter (fun a => cls (key a)) l.
Proof.
  induction l as [|x l IH]; simpl; [reflexivity|].
  rewrite insert_by_filter. simpl. now rewrite IH.
Qed.

Lemma filter_rev (f : A -> bool) l : filter f (rev l) = rev (filter f l).
Proof.
  induction l as [|x l IH]; simpl; [reflexivity|].
  rewrite filter_app, IH. simpl. destruct (f x); simpl.
  - reflexivity.
  - now rewrite app_nil_r.
Qed.

Lemma sort_by_reverse_filter l :
  filter (fun a => cls (key a)) (sort_by_reverse key lt l)
  = filter (fun a => cls (key a)) l.
Proof.
  unfold sort_by_reverse.
  now rewrite filter_rev, sort_by_filter, filter_rev, rev_involutive.
Qed.

End SortingFacts.

(** ** The prediction generator *)

Lemma generate_job_id job_id pattern current_time r :
  _generate_prediction job_id pattern current_time = Some r ->
  PredictionResult.job_id r = job_id.
Proof.
  destruct pattern; simpl; try discriminate.
  - destruct (_ && _); [|discriminate]. now intros [= <-].
  - destruct (_ <? _)%float; [|discriminate]. now intros [= <-].
Qed.

Lemma generate_confidence job_id pattern current_time r :
  _generate_prediction job_id pattern current_time = Some r ->
  PredictionResult.confidence_score r = pattern_confidence pattern.
Proof.
  destruct pattern; simpl; try discriminate.
  - destruct (_ && _); [|discriminate]. now intros [= <-].
  - destruct (_ <? _)%float; [|discriminate]. now intros [= <-].
Qed.

Lemma collect_predictions_In patterns current_time r :
  In r (collect_predictions patterns current_time) <->
  exists job_id pattern,
    In (job_id, pattern) patterns /\
    _generate_prediction job_id pattern current_time = Some r.
Proof.
  induction patterns as [|[k p] rest IH]; simpl.
  - split; [intros []|intros (? & ? & [] & _)].
  - destruct (_generate_prediction k p current_time) eqn:E; simpl; rewrite ?IH.
    + split.
      * intros [<-|(k' & p' & Hin & Hg)]; [exists k, p|exists k', p']; auto.
      * intros (k' & p' & [[= <- <-]|Hin] & Hg).
        -- left. congruence.
        -- right. exists k', p'. auto.
    + split.
      * intros (k' & p' & Hin & Hg). exists k', p'. auto.
      * intros (k' & p' & [[= <- <-]|Hin] & Hg); [congruence|].
        exists k', p'. auto.
Qed.

Lemma collect_predictions_NoDup patterns current_time :
  NoDup (map fst patterns) ->
  NoDup (map PredictionResult.job_id
           (collect_predictions patterns current_time)).
Proof.
  induction patterns as [|[k p] rest IH]; simpl; intros Hnd.
  - constructor.
  - inversion Hnd as [|? ? Hk Hrest]; subst.
    destruct (_generate_prediction k p current_time) eqn:E; simpl; auto.
    constructor; auto.
    rewrite (generate_job_id _ _ _ _ E).
    intros Hin. apply in_map_iff in Hin. destruct Hin as (r & Hr & Hin).
    apply collect_predictions_In in Hin. destruct Hin as (k' & p' & Hin & Hg).
    apply generate_job_id in Hg. apply Hk.
    apply in_map_iff. exists (k', p'). split; [simpl; congruence|exact Hin].
Qed.

Lemma NoDup_fst_functional {A B : Type} (l : list (A * B)) k a b :
  NoDup (map fst l) -> In (k, a) l -> In (k, b) l -> a = b.
Proof.
  induction l as [|[k' c] l IH]; simpl; intros Hnd Ha Hb; [contradiction|].
  inversion Hnd as [|? ? Hk Hl]; subst.
  destruct Ha as [Ha|Ha], Hb as [Hb|Hb]; auto.
  - congruence.
  - injection Ha as -> ->. exfalso. apply Hk.
    apply in_map_iff. now exists (k, b).
  - injection Hb as -> ->. exfalso. apply Hk.
    apply in_map_iff. now exists (k, a).
Qed.

Lemma collect_predictions_confidence patterns current_time (P : float -> Prop) :
  Forall (fun jp => P (pattern_confidence (snd jp))) patterns ->
  Forall (fun r => P (PredictionResult.confidence_score r))
    (collect_predictions patterns current_time).
Proof.
  intros H. apply Forall_forall. intros r Hr.
  apply collect_predictions_In in Hr. destruct Hr as (k & p & Hin & Hg).
  rewrite (generate_confidence _ _ _ _ Hg).
  rewrite Forall_forall in H. exact (H _ Hin).
Qed.

Lemma StronglySorted_weaken {A : Type} (R R' : A -> A -> Prop) (P : A -> Prop) l :
  (forall a b, P a -> P b -> R a b -> R' a b) ->
  Forall P l -> StronglySorted R l -> StronglySorted R' l.
Proof.
  intros HR HP Hs. induction Hs as [|x l Hs IH Hx]; constructor.
  - apply IH. now inversion HP.
  - inversion HP as [|? ? Px Pl]; subst.
    rewrite Forall_forall in Hx, Pl |- *. intros y Hy.
    apply HR; auto.
Qed.

Lemma generate_cron job_id interval_seconds confidence next_run current_time :
  let time_diff :=
    Datetime.total_seconds (Datetime.sub next_run current_time) in
  _generate_prediction job_id (cron interval_seconds confidence next_run)
    current_time
  = if (0 <=? time_diff)%float && (time_diff <=? 300)%float
    then Some (PredictionResult.Build job_id
           (PyFloat.string_of_Z (PyFloat.int (time_diff / 60)%float) ++ ":"
            ++ PyFloat.format_02d (PyFloat.int (PyFloat.mod_ time_diff 60))
            ++ " minutes")%string
           confidence
           (if (0.7 <? confidence)%float then "prewarm" else "skip")
           ("Cron pattern detected with "
            ++ PyFloat.format_0f interval_seconds ++ "s intervals")%string)
    else None.
Proof. reflexivity. Qed.

(** The guard of the cron branch at the ends of the five-minute horizon,
    and one microsecond and one millisecond outside it. *)
Lemma horizon_guards :
  let guard d :=
    ((0 <=? Datetime.total_seconds d)%float
     && (Datetime.total_seconds d <=? 300)%float)%bool in
  guard 0 = true
  /\ guard (300 * us_per_second) = true
  /\ guard (300 * us_per_second + 1) = false
  /\ guard (-1) = false
  /\ guard (300 * us_per_second + 1000) = false
  /\ guard (-1000) = false
  /\ guard (100 * us_per_second) = true.
Proof. vm_compute. repeat split. Qed.

Lemma window_of_100_seconds :
  let time_diff := Datetime.total_seconds (100 * us_per_second) in
  (PyFloat.string_of_Z (PyFloat.int (time_diff / 60)%float) ++ ":"
   ++ PyFloat.format_02d (PyFloat.int (PyFloat.mod_ time_diff 60))
   ++ " minutes")%string = "1:40 minutes"%string.
Proof. vm_compute. reflexivity. Qed.

(** ** The pattern analyzer *)

Lemma mapM_Ok_In {A B : Type} (f : A -> result B) l bs :
  mapM f l = Ok bs ->
  forall b, In b bs -> exists a, In a l /\ f a = Ok b.
Proof.
  revert bs. induction l as [|a l IH]; simpl; intros bs H b Hb.
  - injection H as <-. contradiction.
  - destruct (f a) as [b0|] eqn:Ea; simpl in H; [|discriminate].
    destruct (mapM f l) as [bs0|] eqn:El; simpl in H; [|discriminate].
    injection H as <-. destruct Hb as [<-|Hb].
    + exists a. auto.
    + destruct (IH _ eq_refl _ Hb) as (a' & Ha' & Hf). exists a'. auto.
Qed.

Lemma mapM_windows (all l : list JobExecution.t) :
  Forall (fun e =>
    valid_datetime (JobExecution.timestamp e + window_size) = true) l ->
  mapM (fun exec =>
      window_end <- Datetime.add (JobExecution.timestamp exec) window_size ;;
      Ok (count_in_window all (JobExecution.timestamp exec) window_end)) l
  = Ok (map (fun e => count_in_window all (JobExecution.timestamp e)
                        (JobExecution.timestamp e + window_size)) l).
Proof.
  induction 1 as [|e l He Hl IH]; simpl; [reflexivity|].
  unfold Datetime.add at 1. rewrite He. simpl.
  now rewrite IH.
Qed.

Lemma fold_max_ge n l a :
  n <= fold_left Z.max l a <-> n <= a \/ exists y, In y l /\ n <= y.
Proof.
  revert a. induction l as [|x l IH]; simpl; intros a.
  - split; [auto|]. intros [H|(y & [] & _)]. exact H.
  - rewrite IH. split.
    + intros [H|(y & Hy & Hn)].
      * destruct (Z.max_spec a x) as [[_ E]|[_ E]]; rewrite E in H.
        -- right. exists x. auto.
        -- auto.
      * right. exists y. auto.
    + intros [H|(y & [<-|Hy] & Hn)].
      * left. lia.
      * left. lia.
      * right. exists y. auto.
Qed.

Lemma list_max_ge n l :
  0 < n -> (n <= list_max l <-> exists y, In y l /\ n <= y).
Proof.
  intros Hn. destruct l as [|x l]; simpl.
  - split; [lia|]. intros (y & [] & _).
  - rewrite fold_max_ge. split.
    + intros [H|(y & Hy & H)]; [exists x|exists y]; auto.
    + intros (y & [<-|Hy] & H); [auto|]. right. exists y. auto.
Qed.

Lemma burst_test_criterion executions :
  burst_test executions = true <-> burst_criterion executions.
Proof.
  unfold burst_test, burst_criterion.
  rewrite andb_true_iff, negb_true_iff, Nat.ltb_ge, Z.leb_le.
  rewrite list_max_ge by lia.
  split; intros [Hlen Hex]; (split; [exact Hlen|]).
  - destruct Hex as (y & Hy & Hge). apply in_map_iff in Hy.
    destruct Hy as (e & <- & He). exists e. auto.
  - destruct Hex as (e & He & Hge). eexists. split; [|exact Hge].
    apply in_map_iff. exists e. auto.
Qed.

Lemma detect_burst_in_range executions :
  windows_in_range executions ->
  _detect_burst_pattern executions = Ok (burst_test executions).
Proof.
  intros H. unfold _detect_burst_pattern, burst_test.
  destruct (List.length executions <? 5)%nat eqn:E; [reflexivity|].
  apply Nat.ltb_ge in E. now rewrite (mapM_windows _ _ (H E)).
Qed.

Lemma detect_burst_short executions :
  (List.length executions < 5)%nat ->
  _detect_burst_pattern executions = Ok false.
Proof.
  intros H. unfold _detect_burst_pattern.
  apply Nat.ltb_lt in H. now rewrite H.
Qed.

Lemma intervals_of_nonempty executions :
  (2 <= List.length executions)%nat -> intervals_of executions <> [].
Proof.
  destruct executions as [|a [|b l]]; simpl; try lia. discriminate.
Qed.

Section AnalyzerFacts.

Variable np_mean np_std : list float -> float.

Lemma analyze_short executions :
  (List.length executions < 2)%nat ->
  _analyze_job_pattern np_mean np_std executions = Ok (insufficient_data 0.1).
Proof.
  intros H. unfold _analyze_job_pattern.
  apply Nat.ltb_lt in H. now rewrite H.
Qed.

Lemma analyze_long executions :
  (2 <= List.length executions)%nat ->
  _analyze_job_pattern np_mean np_std executions
  = if periodic_test np_mean np_std executions
    then
      next_predicted <- next_prediction np_mean executions ;;
      Ok (cron (np_mean (intervals_of executions)) 0.9 next_predicted)
    else
      is_burst <- _detect_burst_pattern executions ;;
      Ok (if is_burst : bool then bursty 0.7 true
          else on_demand (np_mean (intervals_of executions)) 0.4
                 (variability_of np_mean np_std executions)).
Proof.
  intros H. unfold _analyze_job_pattern, periodic_test, next_prediction,
    variability_of.
  pose proof (intervals_of_nonempty _ H) as Hne.
  apply Nat.ltb_ge in H. rewrite H.
  destruct (intervals_of executions) as [|x xs] eqn:E; [congruence|].
  destruct (_ && _).
  - destruct (Datetime.of_seconds _); reflexivity.
  - destruct (_detect_burst_pattern executions) as [[]|]; reflexivity.
Qed.

(** The four dictionaries that the analyzer can return. *)
Lemma analyze_shape executions pattern :
  _analyze_job_pattern np_mean np_std executions = Ok pattern ->
  pattern = insufficient_data 0.1
  \/ (exists next_predicted,
        pattern = cron (np_mean (intervals_of executions)) 0.9 next_predicted)
  \/ pattern = bursty 0.7 true
  \/ pattern = on_demand (np_mean (intervals_of executions)) 0.4
                 (variability_of np_mean np_std executions).
Proof.
  destruct (Nat.lt_ge_cases (List.length executions) 2) as [H|H].
  - rewrite (analyze_short _ H). intros [= <-]. auto.
  - rewrite (analyze_long _ H).
    destruct (periodic_test np_mean np_std executions).
    + destruct (next_prediction np_mean executions) as [next|];
        [|discriminate].
      intros [= <-]. right. left. now exists next.
    + destruct (_detect_burst_pattern executions) as [[]|];
        try discriminate; intros [= <-]; auto.
Qed.

End AnalyzerFacts.

(** ** The pipeline *)

Lemma analyze_job_history_patterns (np_mean np_std : list float -> float)
    job_executions analysis :
  analyze_job_history np_mean np_std job_executions = Ok analysis ->
  forall job_id pattern, In (job_id, pattern) (patterns analysis) ->
  exists executions,
    _analyze_job_pattern np_mean np_std executions = Ok pattern.
Proof.
  unfold analyze_job_history.
  destruct (mapM _ (jobs_by_id job_executions)) as [pats|] eqn:E;
    [|discriminate].
  simpl. intros [= <-] job_id pattern Hin. simpl in Hin.
  destruct (mapM_Ok_In _ _ _ E _ Hin) as ([k group] & _ & Hf).
  destruct (_analyze_job_pattern np_mean np_std
              (sort_by JobExecution.timestamp Z.ltb group))
    as [p|] eqn:Ep; [|discriminate].
  simpl in Hf. injection Hf as _ ->. eauto.
Qed.

Lemma group_append_key_in job groups k :
  In k (map fst (group_append job groups)) ->
  k = JobExecution.job_id job \/ In k (map fst groups).
Proof.
  induction groups as [|[k' js] rest IH]; simpl.
  - intros [<-|[]]. auto.
  - destruct (String.eqb k' (JobExecution.job_id job)); simpl.
    + intros [<-|Hk]; auto.
    + intros [<-|Hk]; auto. destruct (IH Hk); auto.
Qed.

Lemma group_append_keys job groups :
  NoDup (map fst groups) -> NoDup (map fst (group_append job groups)).
Proof.
  induction groups as [|[k' js] rest IH]; simpl; intros Hnd.
  - constructor; [intros []|constructor].
  - inversion Hnd as [|? ? Hk Hrest]; subst.
    destruct (String.eqb k' (JobExecution.job_id job)) eqn:E; simpl.
    + exact Hnd.
    + constructor; [|now apply IH].
      intros Hk'. apply String.eqb_neq in E.
      destruct (group_append_key_in _ _ _ Hk'); [congruence|contradiction].
Qed.

Lemma jobs_by_id_keys job_executions :
  NoDup (map fst (jobs_by_id job_executions)).
Proof.
  unfold jobs_by_id.
  assert (H : forall groups, NoDup (map fst groups) ->
            NoDup (map fst (fold_left (fun groups job =>
                                group_append job groups)
                              job_executions groups))).
  { induction job_executions as [|j js IH]; simpl; intros groups Hnd.
    - exact Hnd.
    - apply IH. now apply group_append_keys. }
  apply H. constructor.
Qed.

Lemma mapM_keys {A B : Type} (f : A -> result B) (l : list (string * A)) r :
  mapM (fun '(k, a) => b <- f a ;; Ok (k, b)) l = Ok r ->
  map fst r = map fst l.
Proof.
  revert r. induction l as [|[k a] l IH]; simpl; intros r H.
  - now injection H as <-.
  - destruct (f a) as [b|]; simpl in H; [|discriminate].
    destruct (mapM _ l) as [r'|]; simpl in H; [|discriminate].
    injection H as <-. simpl. f_equal. now apply IH.
Qed.

Lemma analyze_job_history_keys (np_mean np_std : list float -> float)
    job_executions analysis :
  analyze_job_history np_mean np_std job_executions = Ok analysis ->
  NoDup (map fst (patterns analysis)).
Proof.
  unfold analyze_job_history.
  destruct (mapM _ (jobs_by_id job_executions)) as [pats|] eqn:E;
    [|discriminate].
  simpl. intros [= <-]. simpl.
  rewrite (mapM_keys _ _ _ E). apply jobs_by_id_keys.
Qed.

Lemma analyzed_prediction_prewarm (np_mean np_std : list float -> float)
    executions pattern job_id current_time r :
  _analyze_job_pattern np_mean np_std executions = Ok pattern ->
  _generate_prediction job_id pattern current_time = Some r ->
  PredictionResult.action r = "prewarm"%string.
Proof.
  intros Ha Hg. apply analyze_shape in Ha.
  destruct Ha as [-> | [[next ->] | [-> | ->]]]; try discriminate.
  - rewrite generate_cron in Hg. destruct (_ && _); [|discriminate].
    injection Hg as <-. reflexivity.
  - injection Hg as <-. reflexivity.
Qed.

Lemma rank_predictions_descending patterns current_time :
  Forall (fun jp => unit_interval (pattern_confidence (snd jp))) patterns ->
  StronglySorted confidence_ge
    (rank_predictions (collect_predictions patterns current_time)).
Proof.
  intros Hconf.
  assert (Hgood : Forall (fun r =>
            (PredictionResult.confidence_score r
             =? PredictionResult.confidence_score r)%float = true)
            (collect_predictions patterns current_time)).
  { eapply Forall_impl;
      [|apply (collect_predictions_confidence _ _ unit_interval), Hconf].
    intros r [H0 _]. simpl in H0. eapply FloatOrder.leb_not_nan, H0. }
  eapply StronglySorted_weaken.
  - intros a b Ha Hb Hab. unfold ascending in Hab. unfold confidence_ge.
    apply FloatOrder.ltb_total; [exact Ha|exact Hb|exact Hab].
  - eapply Permutation_Forall; [apply sort_by_reverse_perm|exact Hgood].
  - apply (sort_by_reverse_sorted PredictionResult.confidence_score
             PrimFloat.ltb (fun c => (c =? c)%float = true)).
    + apply FloatOrder.ltb_asym.
    + apply FloatOrder.ltb_negtrans.
    + exact Hgood.
Qed.

Lemma analyzed_confidence (np_mean np_std : list float -> float)
    executions pattern :
  _analyze_job_pattern np_mean np_std executions = Ok pattern ->
  unit_interval (pattern_confidence pattern).
Proof.
  intros H. apply analyze_shape in H.
  destruct H as [-> | [[next ->] | [-> | ->]]]; split; reflexivity.
Qed.

Lemma predict_next_jobs_patterns (np_mean np_std : list float -> float)
    job_executions current_time predictions :
  predict_next_jobs np_mean np_std job_executions current_time
  = Ok predictions ->
  exists patterns,
    predictions = rank_predictions (collect_predictions patterns current_time)
    /\ NoDup (map fst patterns)
    /\ forall job_id pattern, In (job_id, pattern) patterns ->
       exists executions,
         _analyze_job_pattern np_mean np_std executions = Ok pattern.
Proof.
  unfold predict_next_jobs. destruct job_executions as [|j js].
  - intros [= <-]. exists []. split; [reflexivity|].
    split; [constructor|]. intros ? ? [].
  - destruct (analyze_job_history np_mean np_std (j :: js))
      as [analysis|] eqn:E; [|discriminate].
    simpl. intros [= <-]. exists (patterns analysis).
    split; [reflexivity|]. split.
    + exact (analyze_job_history_keys _ _ _ _ E).
    + exact (analyze_job_history_patterns _ _ _ _ E).
Qed.

(** ** Equal intervals

    The statistics of a list of equal intervals, in binary64. Every
    operation of the mean and of the standard deviation is read through
    its specification in [SpecFloat] and bounded in the real numbers: a
    result in the normal range is within one part in [2^52] of the exact
    value. A sum of [n] copies of a float, accumulated in any order, is
    then within [2 (n - 1) 2^-52] of [n] times the float, and the standard
    deviation of the copies is far below a tenth of their mean. Where the
    interval is a whole number of seconds the sum and the quotient are
    exact. *)

(** *** Powers of two *)

Lemma bpow_pos e : (0 < bpow e)%R.
Proof. apply powerRZ_lt. lra. Qed.

Lemma bpow_add a b : bpow (a + b) = (bpow a * bpow b)%R.
Proof. apply powerRZ_add. lra. Qed.

Lemma bpow_IZR k : 0 <= k -> bpow k = IZR (2 ^ k).
Proof.
  intros Hk. unfold bpow. rewrite <- (Z2Nat.id k Hk) at 1.
  rewrite <- pow_powerRZ. rewrite pow_IZR. now rewrite Z2Nat.id.
Qed.

Lemma bpow_0 : bpow 0 = 1%R.
Proof. reflexivity. Qed.

Lemma bpow_le a b : a <= b -> (bpow a <= bpow b)%R.
Proof.
  intros H. replace b with (a + (b - a)) by lia. rewrite bpow_add.
  rewrite (bpow_IZR (b - a)) by lia.
  assert (1 <= 2 ^ (b - a)) by (pose proof (Z.pow_pos_nonneg 2 (b - a)); lia).
  apply IZR_le in H0. pose proof (bpow_pos a). nra.
Qed.

Lemma bpow_lt a b : a < b -> (bpow a < bpow b)%R.
Proof.
  intros H. replace b with (a + (b - a)) by lia. rewrite bpow_add.
  rewrite (bpow_IZR (b - a)) by lia.
  assert (2 ^ 1 <= 2 ^ (b - a)) by (apply Z.pow_le_mono_r; lia).
  change (2 ^ 1) with 2 in H0.
  apply IZR_le in H0. pose proof (bpow_pos a). nra.
Qed.

Lemma bpow_lt_inv a b : (bpow a < bpow b)%R -> a < b.
Proof.
  intros H. destruct (Z_lt_ge_dec a b) as [L|G]; [exact L|].
  pose proof (bpow_le b a ltac:(lia)). lra.
Qed.

Lemma bpow_opp_mul a : (bpow a * bpow (- a) = 1)%R.
Proof. rewrite <- bpow_add. replace (a + - a) with 0 by lia. reflexivity. Qed.

Lemma Rabs_le_inv (a b : R) : (Rabs a <= b)%R -> (- b <= a <= b)%R.
Proof. unfold Rabs. destruct (Rcase_abs a); lra. Qed.

Lemma bpow_opp a : bpow (- a) = (/ bpow a)%R.
Proof.
  pose proof (bpow_pos a). apply Rmult_eq_reg_l with (bpow a); [|lra].
  rewrite bpow_opp_mul, Rinv_r; lra.
Qed.

(** The magnitude of [m * 2^e] from the number of digits of [m]. *)
Lemma digits_value m e :
  0 < m ->
  (bpow (Zdigits2 m - 1 + e) <= IZR m * bpow e < bpow (Zdigits2 m + e))%R.
Proof.
  intros Hm.
  pose proof (Zdigits2_ge_pow2 m Hm) as Hge.
  pose proof (Zdigits2_lt_pow2 m ltac:(lia)) as Hlt.
  assert (Hd : 1 <= Zdigits2 m).
  { rewrite Zdigits2_log2 by lia. pose proof (Z.log2_nonneg m). lia. }
  apply IZR_le in Hge. apply IZR_lt in Hlt.
  rewrite <- !bpow_IZR in * by lia.
  rewrite !bpow_add. pose proof (bpow_pos e). nra.
Qed.

Lemma binary_round_aux_error sx mx ex lx (t : R) :
  let e1 := Zdigits2 mx + ex - 53 in
  0 < mx -> ex <= e1 -> -1074 <= e1 -> e1 < 971 ->
  (IZR mx * bpow ex <= t <= IZR (mx + 1) * bpow ex)%R ->
  exists m e,
    binary_round_aux prec emax sx mx ex lx = S754_finite sx m e
    /\ Zdigits2 (Z.pos m) = 53
    /\ e1 <= e
    /\ (Rabs (IZR (Z.pos m) * bpow e - t) <= bpow (-52) * t)%R.
Proof.
  intros e1 Hm He Hlo Hhi Ht.
  destruct (binary_round_aux_normal sx mx ex lx Hm He Hlo Hhi)
    as (m & e & Hres & Hd & Hee & Hval).
  fold e1 in Hee, Hval.
  exists m, e. split; [exact Hres|]. split; [exact Hd|]. split; [exact Hee|].
  set (k := e1 - ex) in *.
  assert (Hk : 0 <= k) by (unfold k; lia).
  set (F := mx / 2 ^ k) in *.
  assert (Hpk : 0 < 2 ^ k) by (apply Z.pow_pos_nonneg; lia).
  assert (HF : F * 2 ^ k <= mx < (F + 1) * 2 ^ k).
  { unfold F. pose proof (Z.div_mod mx (2 ^ k) ltac:(lia)).
    pose proof (Z.mod_pos_bound mx (2 ^ k) Hpk). nia. }
  assert (HF52 : 2 ^ 52 <= F).
  { unfold F. apply Z.div_le_lower_bound; [lia|].
    pose proof (Zdigits2_ge_pow2 mx Hm) as Hge.
    replace (Zdigits2 mx - 1) with (k + 52) in Hge by (unfold k, e1; lia).
    rewrite Z.pow_add_r in Hge by lia. lia. }
  assert (EV : (IZR (Z.pos m) * bpow e
                = IZR (Z.pos m * 2 ^ (e - e1)) * bpow e1)%R).
  { rewrite mult_IZR, <- bpow_IZR by lia.
    replace e with ((e - e1) + e1) at 1 by lia. rewrite bpow_add. ring. }
  assert (Eex : (bpow e1 = IZR (2 ^ k) * bpow ex)%R).
  { rewrite <- bpow_IZR by lia. rewrite <- bpow_add. f_equal. unfold k. lia. }
  pose proof (bpow_pos e1) as Hp1. pose proof (bpow_pos ex) as Hpx.
  assert (HtF : (IZR F * bpow e1 <= t <= IZR (F + 1) * bpow e1)%R).
  { rewrite Eex. destruct HF as [HF1 HF2].
    apply IZR_le in HF1. assert (HF3 : mx + 1 <= (F + 1) * 2 ^ k) by lia.
    apply IZR_le in HF3. rewrite mult_IZR in HF1, HF3.
    split.
    - apply Rle_trans with (IZR mx * bpow ex)%R; [|apply Ht].
      rewrite <- Rmult_assoc. apply Rmult_le_compat_r; [lra|exact HF1].
    - apply Rle_trans with (IZR (mx + 1) * bpow ex)%R; [apply Ht|].
      rewrite <- Rmult_assoc. apply Rmult_le_compat_r; [lra|exact HF3]. }
  apply IZR_le in HF52. rewrite <- bpow_IZR in HF52 by lia.
  rewrite plus_IZR in HtF.
  assert (Hu : (bpow e1 <= bpow (-52) * t)%R).
  { assert (H52 : (bpow 52 * bpow (-52) = 1)%R) by apply (bpow_opp_mul 52).
    pose proof (bpow_pos (-52)).
    apply Rle_trans with (bpow (-52) * (IZR F * bpow e1))%R.
    - apply Rle_trans with (bpow (-52) * (bpow 52 * bpow e1))%R.
      + replace (bpow (-52) * (bpow 52 * bpow e1))%R
          with (bpow e1 * (bpow 52 * bpow (-52)))%R by ring.
        rewrite H52. lra.
      + apply Rmult_le_compat_l; [lra|]. apply Rmult_le_compat_r; lra.
    - apply Rmult_le_compat_l; lra. }
  rewrite EV. apply Rabs_le.
  destruct Hval as [-> | ->]; rewrite ?plus_IZR; lra.
Qed.

(** *** Rounding a mantissa *)

Lemma fexp_eq a : fexp prec emax a = Z.max (a - 53) (-1074).
Proof. reflexivity. Qed.

Lemma binary_round_aux_exact sx m e :
  fexp prec emax (Zdigits2 (Z.pos m) + e) = e -> e <= 971 ->
  binary_round_aux prec emax sx (Z.pos m) e loc_Exact = S754_finite sx m e.
Proof.
  intros Hf He. unfold binary_round_aux, shr_fexp. rewrite Hf, Z.sub_diag.
  cbn [shr shr_record_of_loc loc_of_shr_record shr_m round_nearest_even].
  rewrite Hf, Z.sub_diag.
  cbn [shr shr_record_of_loc loc_of_shr_record shr_m round_nearest_even].
  apply Z.leb_le in He. change (emax - prec) with 971. now rewrite He.
Qed.

Lemma iter_xO_value m d : Z.pos (Pos.iter xO m d) = Z.pos m * 2 ^ Z.pos d.
Proof.
  induction d as [|d IH] using Pos.peano_ind.
  - cbn [Pos.iter]. rewrite Pos2Z.inj_xO. change (2 ^ 1) with 2. lia.
  - rewrite Pos.iter_succ, Pos2Z.inj_xO, IH, Pos2Z.inj_succ, Z.pow_succ_r by lia.
    lia.
Qed.

Lemma shl_align_value mx ex ez :
  ez <= ex ->
  snd (shl_align mx ex ez) = ez
  /\ Z.pos (fst (shl_align mx ex ez)) = Z.pos mx * 2 ^ (ex - ez).
Proof.
  intros H. unfold shl_align. destruct (ez - ex) as [|d|d] eqn:E; try lia.
  - cbn [fst snd]. split; [lia|]. replace (ex - ez) with 0 by lia. lia.
  - cbn [fst snd]. split; [reflexivity|]. rewrite iter_xO_value.
    f_equal. f_equal. lia.
Qed.

Lemma shl_align_id mx ex ez : ex <= ez -> shl_align mx ex ez = (mx, ex).
Proof.
  intros H. unfold shl_align. destruct (ez - ex) as [|d|d] eqn:E; try lia; reflexivity.
Qed.

Lemma Zdigits2_mul_pow2 a n : 0 < a -> 0 <= n -> Zdigits2 (a * 2 ^ n) = Zdigits2 a + n.
Proof.
  intros Ha Hn. rewrite <- Z.shiftl_mul_pow2 by lia. now apply Zdigits2_shiftl.
Qed.

Lemma Zdigits2_pos_ge1 p : 1 <= Zdigits2 (Z.pos p).
Proof. cbn [Zdigits2]. lia. Qed.

(** [binary_round] of [mx * 2^ex]: the result is finite and within one part
    in [2^52] of the value, and it is the value when [mx] has at most 53
    digits. *)
Lemma binary_round_error sx mx ex :
  -1074 <= ex -> Zdigits2 (Z.pos mx) + ex <= 1023 ->
  exists m e,
    binary_round prec emax sx mx ex = S754_finite sx m e
    /\ ex - 52 <= e
    /\ (Rabs (IZR (Z.pos m) * bpow e - IZR (Z.pos mx) * bpow ex)
        <= bpow (-52) * (IZR (Z.pos mx) * bpow ex))%R
    /\ (Zdigits2 (Z.pos mx) <= 53 ->
        (IZR (Z.pos m) * bpow e = IZR (Z.pos mx) * bpow ex)%R).
Proof.
  intros Hex Hov. unfold binary_round.
  change (Z.pos (digits2_pos mx)) with (Zdigits2 (Z.pos mx)).
  pose proof (Zdigits2_pos_ge1 mx) as Hd1.
  set (d := Zdigits2 (Z.pos mx)) in *.
  set (f := fexp prec emax (d + ex)).
  assert (Ef : f = Z.max (d + ex - 53) (-1074)) by reflexivity.
  pose proof (bpow_pos ex) as Hpx. pose proof (bpow_pos (-52)) as Hp52.
  assert (Hmx : (0 < IZR (Z.pos mx))%R) by (apply IZR_lt; lia).
  destruct (Z_le_gt_dec d 53) as [Hle|Hgt].
  - assert (Hfe : f <= ex) by lia.
    destruct (shl_align_value mx ex f Hfe) as [Es Ev].
    destruct (shl_align mx ex f) as [mz ez]. cbn [fst snd] in Es, Ev. subst ez.
    assert (Hdz : Zdigits2 (Z.pos mz) = d + (ex - f)).
    { rewrite Ev. apply Zdigits2_mul_pow2; lia. }
    rewrite binary_round_aux_exact.
    + exists mz, f.
      assert (EV : (IZR (Z.pos mz) * bpow f = IZR (Z.pos mx) * bpow ex)%R).
      { rewrite Ev, mult_IZR, <- bpow_IZR by lia.
        rewrite Rmult_assoc, <- bpow_add. f_equal. f_equal. lia. }
      split; [reflexivity|]. split; [lia|]. split; [|intros _; exact EV].
      rewrite EV. replace (_ - _)%R with 0%R by ring.
      rewrite Rabs_R0.
      apply Rmult_le_pos; [lra|]. apply Rmult_le_pos; lra.
    + rewrite Hdz. replace (d + (ex - f) + f) with (d + ex) by lia. reflexivity.
    + lia.
  - assert (Hfe : ex <= f) by lia.
    rewrite shl_align_id by exact Hfe.
    destruct (binary_round_aux_error sx (Z.pos mx) ex loc_Exact
                (IZR (Z.pos mx) * bpow ex)%R)
      as (m & e & Hres & Hd & Hee & Herr); fold d; try lia.
    { split; [lra|]. rewrite plus_IZR. nra. }
    fold d in Hee.
    exists m, e. split; [exact Hres|]. split; [lia|]. split; [exact Herr|].
    intros H. lia.
Qed.

(** The sum of two positive finite floats. *)
Lemma SFadd_error mx ex my ey :
  -1074 <= ex -> -1074 <= ey ->
  let t := (IZR (Z.pos mx) * bpow ex + IZR (Z.pos my) * bpow ey)%R in
  (t < bpow 1023)%R ->
  exists m e,
    SFadd prec emax (S754_finite false mx ex) (S754_finite false my ey)
    = S754_finite false m e
    /\ (Rabs (IZR (Z.pos m) * bpow e - t) <= bpow (-52) * t)%R.
Proof.
  intros Hex Hey t Ht. cbn [SFadd]. cbv zeta. cbn [cond_Zopp].
  set (ez := Z.min ex ey).
  destruct (shl_align_value mx ex ez ltac:(unfold ez; lia)) as [_ Ex].
  destruct (shl_align_value my ey ez ltac:(unfold ez; lia)) as [_ Ey].
  set (a := fst (shl_align mx ex ez)) in *.
  set (b := fst (shl_align my ey ez)) in *.
  change (Z.pos a + Z.pos b) with (Z.pos (a + b)). cbn [binary_normalize].
  assert (Et : (IZR (Z.pos (a + b)) * bpow ez = t)%R).
  { rewrite Pos2Z.inj_add, plus_IZR, Ex, Ey, !mult_IZR.
    rewrite <- !bpow_IZR by (unfold ez; lia). unfold t.
    rewrite Rmult_plus_distr_r, !Rmult_assoc, <- !bpow_add.
    replace (ex - ez + ez) with ex by lia.
    replace (ey - ez + ez) with ey by lia. reflexivity. }
  destruct (binary_round_error false (a + b) ez) as (m & e & Hres & _ & Herr & _).
  - unfold ez; lia.
  - pose proof (digits_value (Z.pos (a + b)) ez ltac:(lia)) as [Hlo _].
    rewrite Et in Hlo.
    assert (Hlt : (bpow (Zdigits2 (Z.pos (a + b)) - 1 + ez) < bpow 1023)%R) by lra.
    apply bpow_lt_inv in Hlt. lia.
  - rewrite Et in Herr. exists m, e. split; [exact Hres|exact Herr].
Qed.

(** *** The operations on finite binary values *)

(** The difference of two positive finite floats. *)
Lemma SFsub_error mx ex my ey :
  -1074 <= ex -> -1074 <= ey ->
  Zdigits2 (Z.pos mx) + ex <= 1023 -> Zdigits2 (Z.pos my) + ey <= 1023 ->
  let t := (IZR (Z.pos mx) * bpow ex - IZR (Z.pos my) * bpow ey)%R in
  (SFsub prec emax (S754_finite false mx ex) (S754_finite false my ey)
   = S754_zero false /\ t = 0%R)
  \/ exists s m e,
       SFsub prec emax (S754_finite false mx ex) (S754_finite false my ey)
       = S754_finite s m e
       /\ Z.min ex ey - 52 <= e
       /\ (Rabs (IZR (Z.pos m) * bpow e - Rabs t) <= bpow (-52) * Rabs t)%R.
Proof.
  intros Hex Hey Hdx Hdy t. cbn [SFsub]. cbv zeta. cbn [cond_Zopp].
  set (ez := Z.min ex ey).
  destruct (shl_align_value mx ex ez ltac:(unfold ez; lia)) as [_ Ex].
  destruct (shl_align_value my ey ez ltac:(unfold ez; lia)) as [_ Ey].
  set (a := fst (shl_align mx ex ez)) in *.
  set (b := fst (shl_align my ey ez)) in *.
  assert (Hda : Zdigits2 (Z.pos a) + ez = Zdigits2 (Z.pos mx) + ex).
  { rewrite Ex, Zdigits2_mul_pow2 by (unfold ez; lia). lia. }
  assert (Hdb : Zdigits2 (Z.pos b) + ez = Zdigits2 (Z.pos my) + ey).
  { rewrite Ey, Zdigits2_mul_pow2 by (unfold ez; lia). lia. }
  assert (Et : (IZR (Z.pos a - Z.pos b) * bpow ez = t)%R).
  { rewrite minus_IZR, Ex, Ey, !mult_IZR.
    rewrite <- !bpow_IZR by (unfold ez; lia). unfold t.
    rewrite Rmult_minus_distr_r, !Rmult_assoc, <- !bpow_add.
    replace (ex - ez + ez) with ex by lia.
    replace (ey - ez + ez) with ey by lia. reflexivity. }
  pose proof (bpow_pos ez) as Hpz.
  destruct (Z.pos a - Z.pos b) as [|p|p] eqn:E.
  - left. split; [reflexivity|]. rewrite <- Et. simpl. ring.
  - right. cbn [binary_normalize].
    destruct (binary_round_error false p ez) as (m & e & Hres & He & Herr & _).
    + unfold ez; lia.
    + pose proof (Zdigits2_le (Z.pos p) (Z.pos a) ltac:(lia)). lia.
    + exists false, m, e. split; [exact Hres|]. split; [exact He|].
      assert (Hp : (0 < IZR (Z.pos p))%R) by (apply IZR_lt; lia).
      assert (Ea : (Rabs t = IZR (Z.pos p) * bpow ez)%R).
      { rewrite <- Et. apply Rabs_pos_eq, Rlt_le, Rmult_lt_0_compat; assumption. }
      rewrite Ea. exact Herr.
  - right. cbn [binary_normalize].
    destruct (binary_round_error true p ez) as (m & e & Hres & He & Herr & _).
    + unfold ez; lia.
    + pose proof (Zdigits2_le (Z.pos p) (Z.pos b) ltac:(lia)). lia.
    + exists true, m, e. split; [exact Hres|]. split; [exact He|].
      assert (Hp : (0 < IZR (Z.pos p))%R) by (apply IZR_lt; lia).
      assert (Ea : (Rabs t = IZR (Z.pos p) * bpow ez)%R).
      { rewrite <- Et. change (Z.neg p) with (- Z.pos p). rewrite opp_IZR.
        replace (- IZR (Z.pos p) * bpow ez)%R
          with (- (IZR (Z.pos p) * bpow ez))%R by ring.
        rewrite Rabs_Ropp.
        apply Rabs_pos_eq, Rlt_le, Rmult_lt_0_compat; assumption. }
      rewrite Ea. exact Herr.
Qed.

(** The product of two finite floats of 53 digits. *)
Lemma SFmul_error sx mx ex sy my ey :
  Zdigits2 (Z.pos mx) = 53 -> Zdigits2 (Z.pos my) = 53 ->
  let t := (IZR (Z.pos mx) * bpow ex * (IZR (Z.pos my) * bpow ey))%R in
  (bpow (-1021) <= t < bpow 1023)%R ->
  exists m e,
    SFmul prec emax (S754_finite sx mx ex) (S754_finite sy my ey)
    = S754_finite (xorb sx sy) m e
    /\ Zdigits2 (Z.pos m) = 53
    /\ (Rabs (IZR (Z.pos m) * bpow e - t) <= bpow (-52) * t)%R.
Proof.
  intros Hdx Hdy t Ht. cbn [SFmul].
  assert (Et : (IZR (Z.pos (mx * my)) * bpow (ex + ey) = t)%R).
  { rewrite Pos2Z.inj_mul, mult_IZR, bpow_add. unfold t. ring. }
  pose proof (Zdigits2_ge_pow2 (Z.pos mx) ltac:(lia)) as Hx.
  pose proof (Zdigits2_ge_pow2 (Z.pos my) ltac:(lia)) as Hy.
  rewrite Hdx in Hx. rewrite Hdy in Hy. change (53 - 1) with 52 in Hx, Hy.
  assert (HD : 105 <= Zdigits2 (Z.pos (mx * my))).
  { apply (Zdigits2_pow2_le _ 104); [lia|].
    rewrite Pos2Z.inj_mul. change (2 ^ 104) with (2 ^ 52 * 2 ^ 52).
    apply Z.mul_le_mono_nonneg; lia. }
  pose proof (digits_value (Z.pos (mx * my)) (ex + ey) ltac:(lia)) as [Hlo Hhi].
  rewrite Et in Hlo, Hhi.
  assert (H1 : (bpow (-1021) < bpow (Zdigits2 (Z.pos (mx * my)) + (ex + ey)))%R) by lra.
  assert (H2 : (bpow (Zdigits2 (Z.pos (mx * my)) - 1 + (ex + ey)) < bpow 1023)%R) by lra.
  apply bpow_lt_inv in H1, H2.
  destruct (binary_round_aux_error (xorb sx sy) (Z.pos (mx * my)) (ex + ey)
              loc_Exact t) as (m & e & Hres & Hd & _ & Herr); try lia.
  { rewrite Et. split; [lra|]. rewrite <- Et, plus_IZR.
    pose proof (bpow_pos (ex + ey)). nra. }
  exists m, e. split; [exact Hres|]. split; [exact Hd|exact Herr].
Qed.

(** The quotient of two finite floats. *)
Lemma SFdiv_error sx mx ex sy my ey :
  let t := (IZR (Z.pos mx) * bpow ex / (IZR (Z.pos my) * bpow ey))%R in
  (bpow (-1021) <= t < bpow 1023)%R ->
  exists m e,
    SFdiv prec emax (S754_finite sx mx ex) (S754_finite sy my ey)
    = S754_finite (xorb sx sy) m e
    /\ Zdigits2 (Z.pos m) = 53
    /\ (Rabs (IZR (Z.pos m) * bpow e - t) <= bpow (-52) * t)%R.
Proof.
  intros t Ht. cbn [SFdiv].
  pose proof (SFdiv_core_binary_spec (Z.pos mx) ex (Z.pos my) ey
                ltac:(lia) ltac:(lia)) as Hspec.
  assert (Hval : let '(q, e', _) :=
                   SFdiv_core_binary prec emax (Z.pos mx) ex (Z.pos my) ey in
                 (IZR q * bpow e' <= t < IZR (q + 1) * bpow e')%R).
  { unfold SFdiv_core_binary.
    set (e' := Z.min (fexp prec emax (Zdigits2 (Z.pos mx) + ex
                                      - (Zdigits2 (Z.pos my) + ey))) (ex - ey)).
    set (s := ex - ey - e').
    assert (Hs : 0 <= s) by (unfold s, e'; lia).
    rewrite (shift_numerator (Z.pos mx) s Hs).
    pose proof (Z_div_mod (Z.pos mx * 2 ^ s) (Z.pos my) ltac:(lia)) as Hdm.
    destruct (Z.div_eucl (Z.pos mx * 2 ^ s) (Z.pos my)) as [q r].
    destruct Hdm as [Hq Hr].
    assert (Hmy : (0 < IZR (Z.pos my))%R) by (apply IZR_lt; lia).
    pose proof (bpow_pos e') as Hpe. pose proof (bpow_pos ey) as Hpy.
    assert (Et : (t * IZR (Z.pos my)
                  = IZR (Z.pos mx * 2 ^ s) * bpow e')%R).
    { unfold t. rewrite mult_IZR, <- bpow_IZR by lia.
      rewrite Rmult_assoc, <- bpow_add.
      replace (s + e') with (ex + - ey) by (unfold s; lia).
      rewrite bpow_add, bpow_opp. pose proof (bpow_pos ex). field. lra. }
    rewrite Hq, plus_IZR, mult_IZR in Et.
    destruct Hr as [Hr0 Hr1]. apply IZR_le in Hr0. apply IZR_lt in Hr1.
    rewrite plus_IZR. split.
    - apply Rmult_le_reg_r with (IZR (Z.pos my)); [exact Hmy|]. rewrite Et. nra.
    - apply Rmult_lt_reg_r with (IZR (Z.pos my)); [exact Hmy|]. rewrite Et. nra. }
  destruct (SFdiv_core_binary prec emax (Z.pos mx) ex (Z.pos my) ey)
    as [[q e'] l].
  destruct Hspec as (Hq & He & Hd).
  pose proof (bpow_pos e') as Hpe.
  assert (Hqpos : 0 < q).
  { destruct (Z.eq_dec q 0) as [->|N]; [exfalso|lia].
    change (Zdigits2 0) with 0 in He. rewrite fexp_eq in He.
    assert (e' <= -1074) by lia.
    pose proof (bpow_le e' (-1074) H). pose proof (bpow_lt (-1074) (-1021) ltac:(lia)).
    simpl in Hval. lra. }
  pose proof (digits_value q e' Hqpos) as [Hlo Hhi].
  assert (Hq1 : q + 1 <= 2 ^ Zdigits2 q)
    by (pose proof (Zdigits2_lt_pow2 q ltac:(lia)); lia).
  pose proof (Zdigits2_nonneg q) as Hdq.
  apply IZR_le in Hq1. rewrite <- bpow_IZR in Hq1 by lia.
  assert (H1 : (bpow (-1021) < bpow (Zdigits2 q + e'))%R).
  { rewrite bpow_add. nra. }
  assert (H2 : (bpow (Zdigits2 q - 1 + e') < bpow 1023)%R) by lra.
  apply bpow_lt_inv in H1, H2. rewrite fexp_eq in He.
  destruct (binary_round_aux_error (xorb sx sy) q e' l t)
    as (m & e & Hres & Hd53 & _ & Herr); try lia.
  { lra. }
  exists m, e. split; [exact Hres|]. split; [exact Hd53|exact Herr].
Qed.

Lemma Zdigits2_eq m k : 1 <= k -> 2 ^ (k - 1) <= m < 2 ^ k -> Zdigits2 m = k.
Proof.
  intros Hk [Hlo Hhi].
  assert (Hm : 0 < m) by (pose proof (Z.pow_pos_nonneg 2 (k - 1)); lia).
  pose proof (Zdigits2_pow2_le m (k - 1) ltac:(lia) Hlo).
  destruct m as [|p|p]; try lia.
  pose proof (Zdigits2_pos_bound p k ltac:(lia) Hhi). lia.
Qed.

Lemma Rsqr_le_le (a b : R) : (0 <= a)%R -> (0 <= b)%R -> (a * a <= b * b)%R -> (a <= b)%R.
Proof. intros. destruct (Rle_or_lt a b); [assumption|]. nra. Qed.

(** The square root of a positive finite float of 53 digits; [t] is the
    exact root. *)
Lemma SFsqrt_error mx ex (t : R) :
  Zdigits2 (Z.pos mx) = 53 -> -1074 <= ex <= 971 ->
  (0 <= t)%R -> (t * t = IZR (Z.pos mx) * bpow ex)%R ->
  exists m e,
    SFsqrt prec emax (S754_finite false mx ex) = S754_finite false m e
    /\ Zdigits2 (Z.pos m) = 53
    /\ (Rabs (IZR (Z.pos m) * bpow e - t) <= bpow (-52) * t)%R.
Proof.
  intros Hd He Ht0 Ht. cbn [SFsqrt]. unfold SFsqrt_core_binary. rewrite Hd.
  rewrite fexp_eq, !Z.div2_div.
  set (h := ex / 2).
  assert (Hh : 2 * h <= ex <= 2 * h + 1).
  { unfold h. pose proof (Z.div_mod ex 2 ltac:(lia)).
    pose proof (Z.mod_pos_bound ex 2 ltac:(lia)). lia. }
  assert (Eh : (53 + ex + 1) / 2 = h + 27).
  { unfold h. replace (53 + ex + 1) with (ex + 27 * 2) by lia.
    rewrite Z.div_add by lia. reflexivity. }
  rewrite Eh.
  assert (Ee' : Z.min (Z.max (h + 27 - 53) (-1074)) h = h - 26) by lia.
  rewrite Ee'.
  set (e' := h - 26). set (s := ex - 2 * e').
  assert (Hs : 52 <= s <= 53) by (unfold s, e'; lia).
  rewrite (shift_numerator (Z.pos mx) s ltac:(lia)).
  pose proof (Zdigits2_ge_pow2 (Z.pos mx) ltac:(lia)) as Hlo.
  pose proof (Zdigits2_lt_pow2 (Z.pos mx) ltac:(lia)) as Hhi.
  rewrite Hd in Hlo, Hhi. change (53 - 1) with 52 in Hlo.
  change (2 ^ 53) with (2 * 2 ^ 52) in Hhi.
  assert (Hps : 2 ^ 52 <= 2 ^ s <= 2 * 2 ^ 52).
  { split; [apply Z.pow_le_mono_r; lia|].
    change (2 * 2 ^ 52) with (2 ^ 53). apply Z.pow_le_mono_r; lia. }
  set (P := 2 ^ 52) in *. assert (HP : 0 < P) by reflexivity.
  pose proof (Z.sqrtrem_spec (Z.pos mx * 2 ^ s) ltac:(nia)) as Hsq.
  destruct (Z.sqrtrem (Z.pos mx * 2 ^ s)) as [q r].
  destruct Hsq as [Eq [Hr0 Hr1]].
  assert (Hq0 : 0 <= q) by lia.
  assert (HqP : P <= q).
  { destruct (Z_lt_ge_dec q P) as [L|G]; [exfalso|lia].
    assert (P * P <= Z.pos mx * 2 ^ s) by (apply Z.mul_le_mono_nonneg; lia).
    assert ((q + 1) * (q + 1) <= P * P) by (apply Z.mul_le_mono_nonneg; lia).
    lia. }
  assert (Hq2P : q < 2 * P).
  { destruct (Z_lt_ge_dec q (2 * P)) as [L|G]; [exact L|exfalso].
    assert (Z.pos mx * 2 ^ s < (2 * P) * (2 * P)).
    { apply Z.le_lt_trans with (Z.pos mx * (2 * P)).
      - apply Z.mul_le_mono_nonneg_l; lia.
      - apply Z.mul_lt_mono_pos_r; lia. }
    assert ((2 * P) * (2 * P) <= q * q) by (apply Z.mul_le_mono_nonneg; lia).
    lia. }
  assert (Hdq : Zdigits2 q = 53).
  { apply Zdigits2_eq; [lia|]. change (2 ^ (53 - 1)) with P.
    change (2 ^ 53) with (2 * P). lia. }
  pose proof (bpow_pos e') as Hpe.
  assert (Ebx : (bpow ex = IZR (2 ^ s) * (bpow e' * bpow e'))%R).
  { rewrite <- bpow_IZR, <- !bpow_add by lia. f_equal. unfold s. lia. }
  assert (Et2 : (t * t = (IZR q * IZR q + IZR r) * (bpow e' * bpow e'))%R).
  { rewrite Ht, Ebx, <- Rmult_assoc, <- mult_IZR, Eq, plus_IZR, mult_IZR.
    reflexivity. }
  apply IZR_le in Hr0, Hr1, Hq0. rewrite mult_IZR in Hr1.
  set (l := if r =? 0 then loc_Exact else loc_Inexact (if r <=? q then Lt else Gt)).
  destruct (binary_round_aux_error false q e' l t)
    as (m & e & Hres & Hd53 & _ & Herr); rewrite ?Hdq; try lia.
  { rewrite plus_IZR. split.
    - apply Rsqr_le_le; [nra|exact Ht0|]. rewrite Et2. nra.
    - apply Rsqr_le_le; [exact Ht0|nra|]. rewrite Et2. nra. }
  exists m, e. split; [exact Hres|]. split; [exact Hd53|exact Herr].
Qed.

(** *** The operations on floats *)

Lemma Prim2R_finite x s m e :
  Prim2SF x = S754_finite s m e ->
  Prim2R x = (IZR (cond_Zopp s (Z.pos m)) * bpow e)%R.
Proof. intros H. unfold Prim2R. now rewrite H. Qed.

Lemma Prim2R_zero x s : Prim2SF x = S754_zero s -> Prim2R x = 0%R.
Proof. intros H. unfold Prim2R. now rewrite H. Qed.

Lemma positive_finite_pos x : positive_finite x -> (0 < Prim2R x)%R.
Proof.
  intros (m & e & H). rewrite (Prim2R_finite _ _ _ _ H). cbn [cond_Zopp].
  apply Rmult_lt_0_compat; [apply IZR_lt; lia|apply bpow_pos].
Qed.

Lemma valid_canonical s m e :
  valid_binary (S754_finite s m e) = true ->
  Z.max (Zdigits2 (Z.pos m) + e - 53) (-1074) = e /\ e <= 971.
Proof.
  cbn [valid_binary]. unfold bounded, canonical_mantissa.
  rewrite andb_true_iff, Z.eqb_eq, Z.leb_le.
  change (Z.pos (digits2_pos m)) with (Zdigits2 (Z.pos m)).
  rewrite fexp_eq. change (emax - prec) with 971. tauto.
Qed.

(** A valid float of magnitude at least [2^-1022] has 53 digits. *)
Lemma normal_digits s m e :
  valid_binary (S754_finite s m e) = true ->
  (bpow (-1022) <= IZR (Z.pos m) * bpow e)%R ->
  Zdigits2 (Z.pos m) = 53.
Proof.
  intros Hv Hlo. destruct (valid_canonical _ _ _ Hv) as [Hc _].
  pose proof (digits_value (Z.pos m) e ltac:(lia)) as [_ Hhi].
  assert (H : (bpow (-1022) < bpow (Zdigits2 (Z.pos m) + e))%R) by lra.
  apply bpow_lt_inv in H. lia.
Qed.

(** The exponent of a valid float from its magnitude. *)
Lemma exponent_bounds s m e a b :
  valid_binary (S754_finite s m e) = true ->
  (bpow a <= IZR (Z.pos m) * bpow e < bpow b)%R ->
  a - 53 < e /\ Zdigits2 (Z.pos m) + e <= b.
Proof.
  intros Hv [Hlo Hhi]. destruct (valid_binary_bounds _ _ _ Hv) as [Hd _].
  pose proof (digits_value (Z.pos m) e ltac:(lia)) as [Hlo' Hhi'].
  assert (H1 : (bpow a < bpow (Zdigits2 (Z.pos m) + e))%R) by lra.
  assert (H2 : (bpow (Zdigits2 (Z.pos m) - 1 + e) < bpow b)%R) by lra.
  apply bpow_lt_inv in H1, H2. lia.
Qed.

Lemma add_error (x y : float) :
  positive_finite x -> positive_finite y -> (Prim2R x + Prim2R y < bpow 1023)%R ->
  positive_finite (x + y)
  /\ (Rabs (Prim2R (x + y) - (Prim2R x + Prim2R y)) <= bpow (-52) * (Prim2R x + Prim2R y))%R.
Proof.
  intros (mx & ex & Hx) (my & ey & Hy) Hov.
  pose proof (Prim2SF_valid x) as Vx. pose proof (Prim2SF_valid y) as Vy.
  rewrite Hx in Vx. rewrite Hy in Vy.
  destruct (valid_binary_bounds _ _ _ Vx) as [_ [Hex _]].
  destruct (valid_binary_bounds _ _ _ Vy) as [_ [Hey _]].
  rewrite (Prim2R_finite _ _ _ _ Hx), (Prim2R_finite _ _ _ _ Hy) in *.
  cbn [cond_Zopp] in *.
  destruct (SFadd_error mx ex my ey Hex Hey Hov) as (m & e & Hres & Herr).
  assert (Hs : Prim2SF (x + y) = S754_finite false m e).
  { rewrite add_spec, Hx, Hy. exact Hres. }
  split; [now exists m, e|].
  rewrite (Prim2R_finite _ _ _ _ Hs). exact Herr.
Qed.

Lemma add_zero_l (x y : float) :
  Prim2SF x = S754_zero false ->
  positive_finite y \/ Prim2SF y = S754_zero false ->
  Prim2SF (x + y) = Prim2SF y.
Proof.
  intros Hx Hy. rewrite add_spec, Hx.
  destruct Hy as [(m & e & ->)| ->]; reflexivity.
Qed.

Lemma add_zero_r (x y : float) :
  positive_finite x \/ Prim2SF x = S754_zero false ->
  Prim2SF y = S754_zero false ->
  Prim2SF (x + y) = Prim2SF x.
Proof.
  intros Hx Hy. rewrite add_spec, Hy.
  destruct Hx as [(m & e & ->)| ->]; reflexivity.
Qed.

(** The difference of two positive floats between [2^-200] and [2^200]:
    a positive zero when they are equal, and otherwise a float of 53
    digits. *)
Lemma sub_error (x y : float) :
  positive_finite x -> positive_finite y ->
  (bpow (-200) <= Prim2R x < bpow 200)%R -> (bpow (-200) <= Prim2R y < bpow 200)%R ->
  (Prim2SF (x - y) = S754_zero false /\ Prim2R x = Prim2R y)
  \/ exists s m e,
       Prim2SF (x - y) = S754_finite s m e
       /\ Zdigits2 (Z.pos m) = 53
       /\ (bpow (-400) <= IZR (Z.pos m) * bpow e)%R
       /\ (Rabs (IZR (Z.pos m) * bpow e - Rabs (Prim2R x - Prim2R y))
           <= bpow (-52) * Rabs (Prim2R x - Prim2R y))%R.
Proof.
  intros (mx & ex & Hx) (my & ey & Hy) Bx By.
  pose proof (Prim2SF_valid x) as Vx. pose proof (Prim2SF_valid y) as Vy.
  pose proof (Prim2SF_valid (x - y)) as Vs.
  rewrite Hx in Vx. rewrite Hy in Vy.
  rewrite (Prim2R_finite _ _ _ _ Hx), (Prim2R_finite _ _ _ _ Hy) in *.
  cbn [cond_Zopp] in *.
  destruct (exponent_bounds _ _ _ _ _ Vx Bx) as [Hex Hdx].
  destruct (exponent_bounds _ _ _ _ _ Vy By) as [Hey Hdy].
  rewrite sub_spec, Hx, Hy in *.
  destruct (SFsub_error mx ex my ey) as [[Hz Ht]|(s & m & e & Hres & He & Herr)];
    try lia.
  - left. split; [exact Hz|lra].
  - right. exists s, m, e. unfold SF64sub in *. rewrite Hres in Vs.
    assert (Hlo : (bpow (-400) <= IZR (Z.pos m) * bpow e)%R).
    { assert (H1 : (1 <= IZR (Z.pos m))%R) by (apply IZR_le; lia).
      pose proof (bpow_le (-400) e ltac:(lia)). pose proof (bpow_pos e). nra. }
    split; [exact Hres|]. split; [|split; [exact Hlo|exact Herr]].
    apply (normal_digits s m e Vs).
    pose proof (bpow_le (-1022) (-400) ltac:(lia)). lra.
Qed.

(** The square of a float of 53 digits. *)
Lemma mul_self_error (z : float) s m e :
  Prim2SF z = S754_finite s m e -> Zdigits2 (Z.pos m) = 53 ->
  let v := (IZR (Z.pos m) * bpow e)%R in
  (bpow (-1021) <= v * v < bpow 1023)%R ->
  positive_finite (z * z)
  /\ (Rabs (Prim2R (z * z) - v * v) <= bpow (-52) * (v * v))%R.
Proof.
  intros Hz Hd v Hv.
  destruct (SFmul_error s m e s m e Hd Hd Hv) as (m' & e' & Hres & _ & Herr).
  assert (Hs : Prim2SF (z * z) = S754_finite false m' e').
  { rewrite mul_spec, Hz. unfold SF64mul. rewrite Hres. now destruct s. }
  split; [now exists m', e'|].
  rewrite (Prim2R_finite _ _ _ _ Hs). exact Herr.
Qed.

Lemma mul_error (x y : float) :
  positive_finite x -> positive_finite y ->
  (bpow (-1022) <= Prim2R x)%R -> (bpow (-1022) <= Prim2R y)%R ->
  (bpow (-1021) <= Prim2R x * Prim2R y < bpow 1023)%R ->
  positive_finite (x * y)
  /\ (Rabs (Prim2R (x * y) - Prim2R x * Prim2R y) <= bpow (-52) * (Prim2R x * Prim2R y))%R.
Proof.
  intros (mx & ex & Hx) (my & ey & Hy) Bx By Bt.
  pose proof (Prim2SF_valid x) as Vx. pose proof (Prim2SF_valid y) as Vy.
  rewrite Hx in Vx. rewrite Hy in Vy.
  rewrite (Prim2R_finite _ _ _ _ Hx), (Prim2R_finite _ _ _ _ Hy) in *.
  cbn [cond_Zopp] in *.
  destruct (SFmul_error false mx ex false my ey
              (normal_digits _ _ _ Vx Bx) (normal_digits _ _ _ Vy By) Bt)
    as (m & e & Hres & _ & Herr).
  assert (Hs : Prim2SF (x * y) = S754_finite false m e).
  { rewrite mul_spec, Hx, Hy. exact Hres. }
  split; [now exists m, e|].
  rewrite (Prim2R_finite _ _ _ _ Hs). exact Herr.
Qed.

Lemma div_error (x y : float) :
  positive_finite x -> positive_finite y ->
  (bpow (-1021) <= Prim2R x / Prim2R y < bpow 1023)%R ->
  positive_finite (x / y)
  /\ (Rabs (Prim2R (x / y) - Prim2R x / Prim2R y) <= bpow (-52) * (Prim2R x / Prim2R y))%R.
Proof.
  intros (mx & ex & Hx) (my & ey & Hy) Bt.
  rewrite (Prim2R_finite _ _ _ _ Hx), (Prim2R_finite _ _ _ _ Hy) in *.
  cbn [cond_Zopp] in *.
  destruct (SFdiv_error false mx ex false my ey Bt) as (m & e & Hres & _ & Herr).
  assert (Hs : Prim2SF (x / y) = S754_finite false m e).
  { rewrite div_spec, Hx, Hy. exact Hres. }
  split; [now exists m, e|].
  rewrite (Prim2R_finite _ _ _ _ Hs). exact Herr.
Qed.

Lemma sqrt_error (x : float) :
  positive_finite x -> (bpow (-1022) <= Prim2R x)%R ->
  positive_finite (PrimFloat.sqrt x)
  /\ exists t : R, (0 <= t)%R /\ (t * t = Prim2R x)%R
       /\ (Rabs (Prim2R (PrimFloat.sqrt x) - t) <= bpow (-52) * t)%R.
Proof.
  intros (mx & ex & Hx) Bx.
  pose proof (Prim2SF_valid x) as Vx. rewrite Hx in Vx.
  rewrite (Prim2R_finite _ _ _ _ Hx) in *. cbn [cond_Zopp] in *.
  destruct (valid_binary_bounds _ _ _ Vx) as [_ He].
  assert (Hpos : (0 <= IZR (Z.pos mx) * bpow ex)%R).
  { pose proof (bpow_pos (-1022)). lra. }
  destruct (SFsqrt_error mx ex (R_sqrt.sqrt (IZR (Z.pos mx) * bpow ex))
              (normal_digits _ _ _ Vx Bx) He)
    as (m & e & Hres & _ & Herr).
  { apply sqrt_pos. }
  { now apply sqrt_sqrt. }
  assert (Hs : Prim2SF (PrimFloat.sqrt x) = S754_finite false m e).
  { rewrite sqrt_spec, Hx. exact Hres. }
  split; [now exists m, e|].
  exists (R_sqrt.sqrt (IZR (Z.pos mx) * bpow ex)).
  split; [apply sqrt_pos|]. split; [now apply sqrt_sqrt|].
  rewrite (Prim2R_finite _ _ _ _ Hs). exact Herr.
Qed.

(** The order of two floats from the order of their values. *)
Lemma ltb_of_real (x y : float) :
  positive_finite x \/ Prim2SF x = S754_zero false -> positive_finite y ->
  (Prim2R x < Prim2R y)%R -> (x <? y)%float = true.
Proof.
  intros Hx (my & ey & Hy) Hlt. rewrite ltb_spec.
  pose proof (Prim2SF_valid x) as Vx. pose proof (Prim2SF_valid y) as Vy.
  unfold Prim2R in Hlt. rewrite Hy in *.
  destruct Hx as [(mx & ex & Hx)|Hx]; rewrite Hx in *; [|reflexivity].
  cbn [SF2R cond_Zopp] in Hlt. cbn [SFltb SFcompare].
  destruct (valid_canonical _ _ _ Vx) as [Cx _].
  destruct (valid_canonical _ _ _ Vy) as [Cy _].
  pose proof (Zdigits2_pos_ge1 mx). pose proof (Zdigits2_pos_ge1 my).
  destruct (Z.compare_spec ex ey) as [E|L|G].
  - subst ey. pose proof (bpow_pos ex).
    assert (Hm : (IZR (Z.pos mx) < IZR (Z.pos my))%R) by nra.
    apply lt_IZR in Hm.
    change (Pos.compare_cont Eq mx my) with (Pos.compare mx my).
    apply Pos2Z.pos_lt_pos in Hm. apply Pos.compare_lt_iff in Hm.
    now rewrite Hm.
  - reflexivity.
  - exfalso.
    pose proof (digits_value (Z.pos mx) ex ltac:(lia)) as [Hlo _].
    pose proof (digits_value (Z.pos my) ey ltac:(lia)) as [_ Hhi].
    pose proof (bpow_le (Zdigits2 (Z.pos my) + ey) (Zdigits2 (Z.pos mx) - 1 + ex)
                  ltac:(lia)).
    lra.
Qed.

(** *** Sums of equal terms *)

Lemma INR_ge1 n : n <> 0%nat -> (1 <= INR n)%R.
Proof.
  intros H. replace 1%R with (INR 1) by reflexivity. apply le_INR. lia.
Qed.

(** Sums of copies of a positive zero. *)
Lemma summed_zeros l s :
  summed l s -> Forall (fun x => Prim2SF x = S754_zero false) l ->
  Prim2SF s = S754_zero false.
Proof.
  induction 1 as [|x|l1 l2 s1 s2 H1 IH1 H2 IH2|l l' s HP H IH]; intros HF.
  - reflexivity.
  - now inversion HF.
  - apply Forall_app in HF. destruct HF as [F1 F2].
    rewrite add_zero_l; auto.
  - apply IH. eapply Permutation_Forall; [|exact HF]. now apply Permutation_sym.
Qed.

Section ConstantSum.

Variable c : float.
Hypothesis Hc : positive_finite c.

(** Sums of [n] copies of a positive float [c]: the relative error is at
    most [2 (n - 1) 2^-52], whatever the order of accumulation. *)
Lemma summed_constant l s :
  summed l s -> Forall (fun x => x = c) l ->
  (INR (List.length l) * bpow (-51) <= 1)%R ->
  (2 * INR (List.length l) * Prim2R c < bpow 1023)%R ->
  (List.length l = 0%nat -> Prim2SF s = S754_zero false)
  /\ (List.length l <> 0%nat ->
      positive_finite s
      /\ (Rabs (Prim2R s - INR (List.length l) * Prim2R c)
          <= 2 * INR (List.length l) * (INR (List.length l) - 1)
             * bpow (-52) * Prim2R c)%R).
Proof.
  pose proof (positive_finite_pos c Hc) as HC.
  assert (E51 : bpow (-51) = (2 * bpow (-52))%R).
  { change (-51) with (1 + -52). rewrite bpow_add.
    replace (bpow 1) with 2%R by (unfold bpow; simpl; ring). reflexivity. }
  pose proof (bpow_pos (-52)) as Hp52.
  induction 1 as [|x|l1 l2 s1 s2 H1 IH1 H2 IH2|l l' s HP H IH];
    intros HF Hn Hov.
  - split; [reflexivity|]. intros N. now elim N.
  - apply Forall_inv in HF. subst x. split; [discriminate|]. intros _.
    split; [exact Hc|]. cbn [List.length INR].
    replace (Prim2R c - 1 * Prim2R c)%R with 0%R by ring. rewrite Rabs_R0. nra.
  - apply Forall_app in HF. destruct HF as [F1 F2].
    rewrite length_app, plus_INR in *.
    pose proof (pos_INR (List.length l1)) as P1.
    pose proof (pos_INR (List.length l2)) as P2.
    destruct (IH1 F1 ltac:(nra) ltac:(nra)) as [Z1 N1].
    destruct (IH2 F2 ltac:(nra) ltac:(nra)) as [Z2 N2].
    destruct (Nat.eq_dec (List.length l1) 0) as [E1|E1];
      destruct (Nat.eq_dec (List.length l2) 0) as [E2|E2].
    + split; [intros _|lia]. rewrite add_zero_l; auto.
    + split; [lia|intros _]. specialize (Z1 E1). destruct (N2 E2) as [Q2 B2].
      assert (Es : Prim2SF (s1 + s2) = Prim2SF s2) by (apply add_zero_l; auto).
      rewrite E1. cbn [INR]. rewrite Rplus_0_l. unfold positive_finite, Prim2R in *.
      rewrite Es. split; assumption.
    + split; [lia|intros _]. specialize (Z2 E2). destruct (N1 E1) as [Q1 B1].
      assert (Es : Prim2SF (s1 + s2) = Prim2SF s1) by (apply add_zero_r; auto).
      rewrite E2. cbn [INR]. rewrite Rplus_0_r. unfold positive_finite, Prim2R in *.
      rewrite Es. split; assumption.
    + split; [lia|intros _].
      destruct (N1 E1) as [Q1 B1]. destruct (N2 E2) as [Q2 B2].
      pose proof (INR_ge1 _ E1) as G1. pose proof (INR_ge1 _ E2) as G2.
      set (a := INR (List.length l1)) in *. set (b := INR (List.length l2)) in *.
      set (C := Prim2R c) in *. set (eps := bpow (-52)) in *.
      apply Rabs_le_inv in B1, B2.
      assert (A1 : (2 * a * (a - 1) * eps * C <= (a - 1) * C)%R).
      { assert (2 * a * eps <= 1)%R by nra.
        assert (0 <= (a - 1) * C)%R by nra. nra. }
      assert (A2 : (2 * b * (b - 1) * eps * C <= (b - 1) * C)%R).
      { assert (2 * b * eps <= 1)%R by nra.
        assert (0 <= (b - 1) * C)%R by nra. nra. }
      assert (Hsum : (Prim2R s1 + Prim2R s2 < bpow 1023)%R) by nra.
      destruct (add_error s1 s2 Q1 Q2 Hsum) as [Q B].
      split; [exact Q|]. apply Rabs_le_inv in B. apply Rabs_le.
      set (E1' := (2 * a * (a - 1) * eps * C)%R) in *.
      set (E2' := (2 * b * (b - 1) * eps * C)%R) in *.
      assert (Hgoal : (2 * (a + b) * (a + b - 1) * eps * C
                       = E1' + E2' + 4 * a * b * eps * C)%R)
        by (unfold E1', E2'; ring).
      rewrite Hgoal.
      assert (Hk : (eps * (Prim2R s1 + Prim2R s2) <= 4 * a * b * eps * C)%R).
      { assert (Prim2R s1 + Prim2R s2 <= (2 * (a + b) - 2) * C)%R by lra.
        assert ((2 * (a + b) - 2) * C <= 4 * a * b * C)%R.
        { apply Rmult_le_compat_r; [lra|]. nra. }
        assert (eps * (Prim2R s1 + Prim2R s2) <= eps * (4 * a * b * C))%R
          by (apply Rmult_le_compat_l; lra).
        lra. }
      fold eps in B. lra.
  - assert (EL : List.length l' = List.length l)
      by (symmetry; now apply Permutation_length).
    rewrite EL in *. apply IH; auto.
    eapply Permutation_Forall; [|exact HF]. now apply Permutation_sym.
Qed.

End ConstantSum.

(** *** Counts and intervals *)

Lemma bpow_neg k : k <= 0 -> bpow k = (/ IZR (2 ^ (- k)))%R.
Proof.
  intros H. rewrite <- (Z.opp_involutive k) at 1.
  rewrite bpow_opp, bpow_IZR by lia. reflexivity.
Qed.

(** [float(n)] is exact below [2^53]. *)
Lemma of_int_exact n :
  1 <= n < 2 ^ 53 ->
  positive_finite (PyFloat.of_int n) /\ Prim2R (PyFloat.of_int n) = IZR n.
Proof.
  intros [Hlo Hhi]. destruct n as [|p|p]; try lia.
  unfold PyFloat.of_int. cbn [binary_normalize].
  pose proof (Zdigits2_pos_bound p 53 ltac:(lia) Hhi) as Hd.
  destruct (binary_round_finite false p 0 ltac:(lia)) as (Hv & _ & _).
  destruct (binary_round_error false p 0 ltac:(lia) ltac:(lia))
    as (m & e & Hres & _ & _ & Hex).
  rewrite Hres in Hv.
  assert (Hs : Prim2SF (SF2Prim (binary_round prec emax false p 0))
               = S754_finite false m e).
  { rewrite Hres. now apply Prim2SF_SF2Prim. }
  split; [now exists m, e|].
  rewrite (Prim2R_finite _ _ _ _ Hs). cbn [cond_Zopp]. rewrite (Hex Hd).
  rewrite bpow_0. ring.
Qed.

(** [total_seconds] of a positive difference is within one part in [2^52]
    of the quotient by [10^6]. *)
Lemma total_seconds_error d :
  0 < d < 2 ^ 62 ->
  positive_finite (Datetime.total_seconds d)
  /\ (Rabs (Prim2R (Datetime.total_seconds d) - IZR d / 1000000)
      <= bpow (-52) * (IZR d / 1000000))%R.
Proof.
  intros [Hlo Hhi]. destruct d as [|p|p]; try lia.
  pose proof (Prim2SF_total_seconds (Z.pos p) ltac:(lia)) as Hs.
  change (PyFloat.Z2SF (Z.pos p)) with (S754_finite false p 0) in Hs.
  change (PyFloat.Z2SF us_per_second) with (S754_finite false 1000000 0) in Hs.
  assert (Et : (IZR (Z.pos p) * bpow 0 / (IZR 1000000 * bpow 0)
                = IZR (Z.pos p) / 1000000)%R).
  { rewrite bpow_0. field. }
  destruct (SFdiv_error false p 0 false 1000000 0) as (m & e & Hres & _ & Herr).
  { rewrite Et.
    assert (H1 : 1 <= Z.pos p) by lia.
    apply IZR_le in H1. apply IZR_lt in Hhi.
    rewrite <- bpow_IZR in Hhi by lia.
    pose proof (bpow_le (-1021) (-20) ltac:(lia)).
    pose proof (bpow_lt 62 1023 ltac:(lia)).
    pose proof (bpow_neg (-20) ltac:(lia)) as E20.
    change (2 ^ (- -20)) with 1048576 in E20.
    rewrite E20 in H. split; [|lra].
    eapply Rle_trans; [exact H|]. lra. }
  rewrite Hres in Hs. split; [now exists m, e|].
  rewrite (Prim2R_finite _ _ _ _ Hs). cbn [cond_Zopp xorb]. rewrite <- Et. exact Herr.
Qed.

(** *** The periodic test on equal intervals *)

Lemma Prim2SF_tenth : Prim2SF 0.1 = S754_finite false 7205759403792794 (-56).
Proof. vm_compute. reflexivity. Qed.

Lemma bpow_m52 : (0 < bpow (-52) <= / 1000)%R.
Proof.
  split; [apply bpow_pos|]. rewrite (bpow_neg (-52)) by lia.
  change (2 ^ (- -52)) with 4503599627370496. lra.
Qed.

Lemma bpow_m51 : bpow (-51) = (2 * bpow (-52))%R.
Proof.
  change (-51) with (1 + -52). rewrite bpow_add.
  replace (bpow 1) with 2%R by (unfold bpow; simpl; ring). reflexivity.
Qed.

Lemma bpow_m11 : (bpow (-11) <= / 1000)%R.
Proof.
  rewrite (bpow_neg (-11)) by lia. change (2 ^ (- -11)) with 2048. lra.
Qed.

Lemma bpow_double a : bpow (a + 1) = (2 * bpow a)%R.
Proof.
  rewrite bpow_add.
  replace (bpow 1) with 2%R by (unfold bpow; simpl; ring). ring.
Qed.

Lemma Prim2R_tenth : (9 / 100 <= Prim2R 0.1 <= 11 / 100)%R.
Proof.
  rewrite (Prim2R_finite _ _ _ _ Prim2SF_tenth). cbn [cond_Zopp].
  rewrite (bpow_neg (-56)) by lia.
  change (2 ^ (- -56)) with 72057594037927936. lra.
Qed.

Section EqualGaps.

Variable g : float.
Variable l : list float.
Hypothesis Hg : positive_finite g.
Hypothesis HG : (bpow (-21) <= Prim2R g <= bpow 44)%R.
Hypothesis Hne : l <> [].
Hypothesis Hlen : Z.of_nat (List.length l) <= 2 ^ 40.
Hypothesis Hall : Forall (fun x => x = g) l.

Lemma count_bounds :
  (1 <= INR (List.length l) <= bpow 40)%R
  /\ (INR (List.length l) * bpow (-51) <= bpow (-11))%R.
Proof.
  assert (H1 : (1 <= INR (List.length l))%R).
  { apply INR_ge1. destruct l; [congruence|discriminate]. }
  assert (H2 : (INR (List.length l) <= bpow 40)%R).
  { rewrite INR_IZR_INZ, bpow_IZR by lia. now apply IZR_le. }
  split; [split; assumption|].
  replace (bpow (-11)) with (bpow 40 * bpow (-51))%R
    by (rewrite <- bpow_add; reflexivity).
  apply Rmult_le_compat_r; [apply Rlt_le, bpow_pos|exact H2].
Qed.

Lemma count_float :
  positive_finite (PyFloat.of_int (Z.of_nat (List.length l)))
  /\ Prim2R (PyFloat.of_int (Z.of_nat (List.length l))) = INR (List.length l).
Proof.
  rewrite INR_IZR_INZ. apply of_int_exact.
  assert (List.length l <> 0%nat) by (destruct l; [congruence|discriminate]).
  change (2 ^ 53) with 9007199254740992. change (2 ^ 40) with 1099511627776 in Hlen.
  lia.
Qed.

(** A mean of [n] copies of [g] is within [n 2^-51] of [g], relatively. *)
Lemma mean_close mu :
  mean_of_sum mu l ->
  positive_finite mu
  /\ (Rabs (Prim2R mu - Prim2R g) <= INR (List.length l) * bpow (-51) * Prim2R g)%R.
Proof.
  intros (s & Hs & ->).
  destruct count_bounds as [[N1 N40] Neta].
  destruct count_float as [Pn Fn].
  pose proof bpow_m52 as [He0 He]. pose proof bpow_m11 as H11.
  pose proof bpow_m51 as E51.
  pose proof (positive_finite_pos g Hg) as G0.
  set (N := INR (List.length l)) in *. set (G := Prim2R g) in *.
  set (eps := bpow (-52)) in *.
  assert (Hov : (2 * N * G < bpow 1023)%R).
  { pose proof (bpow_lt 85 1023 ltac:(lia)).
    replace (bpow 85) with (2 * (bpow 40 * bpow 44))%R in H
      by (rewrite <- bpow_add, <- bpow_double; reflexivity).
    assert (N * G <= bpow 40 * bpow 44)%R by (apply Rmult_le_compat; lra).
    lra. }
  destruct (summed_constant g Hg l s Hs Hall ltac:(fold N; lra) Hov) as [_ HS].
  destruct HS as [Ps BS].
  { destruct l; [congruence|discriminate]. }
  fold N G eps in BS. apply Rabs_le_inv in BS.
  set (dl := (2 * (N - 1) * eps)%R) in *.
  assert (Hdl : (0 <= dl <= / 1000)%R).
  { unfold dl. split; [nra|]. rewrite E51 in Neta. nra. }
  replace (2 * N * (N - 1) * eps * G)%R with (N * (dl * G))%R in BS
    by (unfold dl; ring).
  set (t := (Prim2R s / N)%R).
  assert (Et : (Prim2R s = N * t)%R) by (unfold t; field; lra).
  assert (Bt : (- (dl * G) <= t - G <= dl * G)%R).
  { rewrite Et in BS. split.
    - apply Rmult_le_reg_l with N; [lra|]. lra.
    - apply Rmult_le_reg_l with N; [lra|]. lra. }
  assert (HdG : (0 <= dl * G <= G / 1000)%R).
  { split; [apply Rmult_le_pos; lra|].
    apply Rle_trans with (/ 1000 * G)%R; [apply Rmult_le_compat_r; lra|lra]. }
  assert (Brange : (bpow (-1021) <= t < bpow 1023)%R).
  { pose proof (bpow_le (-1021) (-22) ltac:(lia)).
    pose proof (bpow_lt 45 1023 ltac:(lia)).
    pose proof (bpow_double (-22)) as D1. change (-22 + 1) with (-21) in D1.
    pose proof (bpow_double 44) as D2. change (44 + 1) with 45 in D2.
    split; lra. }
  destruct (div_error s (PyFloat.of_int (Z.of_nat (List.length l))) Ps Pn)
    as [Pmu Bmu].
  { rewrite Fn. exact Brange. }
  split; [exact Pmu|]. rewrite Fn in Bmu. fold N t in Bmu.
  apply Rabs_le_inv in Bmu. apply Rabs_le.
  fold eps in Bmu.
  assert (Het : (eps * t <= eps * G + eps * (dl * G))%R).
  { replace (eps * G + eps * (dl * G))%R with (eps * (G + dl * G))%R by ring.
    apply Rmult_le_compat_l; lra. }
  assert (Hedl : (eps * (dl * G) <= eps * G)%R).
  { apply Rmult_le_compat_l; [lra|]. lra. }
  assert (Egoal : (N * bpow (-51) * G = dl * G + 2 * (eps * G))%R).
  { rewrite E51. unfold dl. ring. }
  rewrite Egoal. lra.
Qed.

Lemma squares_constant mu :
  Forall (fun x => x = ((g - mu) * (g - mu))%float)
         (map (fun x => ((x - mu) * (x - mu))%float) l).
Proof.
  apply Forall_map. eapply Forall_impl; [|exact Hall].
  intros x ->. reflexivity.
Qed.

(** The periodic test on [n] copies of [g]. *)
Lemma equal_gaps_test mean std :
  mean_of_sum mean l -> std_of_sum std l ->
  (std <? mean * 0.1)%float = true.
Proof.
  intros Hmean (mu & s & Hmu & Hs & ->).
  destruct (mean_close mean Hmean) as [Pm Cm].
  destruct (mean_close mu Hmu) as [Pmu Cmu].
  destruct count_bounds as [[N1 N40] Neta].
  destruct count_float as [Pn Fn].
  pose proof bpow_m52 as [He0 He]. pose proof bpow_m11 as H11.
  pose proof bpow_m51 as E51.
  pose proof (positive_finite_pos g Hg) as G0.
  pose proof Prim2R_tenth as [T1 T2].
  assert (P01 : positive_finite 0.1).
  { exists 7205759403792794%positive, (-56). exact Prim2SF_tenth. }
  set (N := INR (List.length l)) in *. set (G := Prim2R g) in *.
  set (eps := bpow (-52)) in *.
  apply Rabs_le_inv in Cm, Cmu.
  assert (HNG : (0 <= N * bpow (-51) * G <= G / 1000)%R).
  { split; [apply Rmult_le_pos; [apply Rmult_le_pos|]; try lra;
            apply Rlt_le, bpow_pos|].
    apply Rle_trans with (/ 1000 * G)%R; [apply Rmult_le_compat_r; lra|lra]. }
  pose proof (bpow_double (-22)) as D22. change (-22 + 1) with (-21) in D22.
  pose proof (bpow_double 44) as D44. change (44 + 1) with 45 in D44.
  pose proof (bpow_pos (-22)) as P22.
  (* the threshold *)
  assert (HT : positive_finite (mean * 0.1)
               /\ (G / 20 <= Prim2R (mean * 0.1))%R).
  { destruct (mul_error mean 0.1 Pm P01) as [PT BT].
    - pose proof (bpow_le (-1022) (-22) ltac:(lia)). lra.
    - pose proof (bpow_le (-1022) (-4) ltac:(lia)).
      rewrite (bpow_neg (-4)) in H by lia. change (2 ^ (- -4)) with 16 in H. lra.
    - pose proof (bpow_le (-1021) (-26) ltac:(lia)).
      pose proof (bpow_lt 45 1023 ltac:(lia)).
      assert (E26 : (bpow (-26) = bpow (-22) * / 16)%R).
      { change (-26) with (-22 + -4). rewrite bpow_add, (bpow_neg (-4)) by lia.
        reflexivity. }
      assert (Hlo : (bpow (-22) * (9 / 100) <= Prim2R mean * Prim2R 0.1)%R)
        by (apply Rmult_le_compat; lra).
      assert (Hhi : (Prim2R mean * Prim2R 0.1 <= bpow 45 * (11 / 100))%R)
        by (apply Rmult_le_compat; lra).
      pose proof (bpow_pos 45). split; lra.
    - split; [exact PT|]. apply Rabs_le_inv in BT. fold eps in BT.
      assert (Hlo : ((G * (999 / 1000)) * (9 / 100) <= Prim2R mean * Prim2R 0.1)%R)
        by (apply Rmult_le_compat; lra).
      assert (Hup : (Prim2R mean * Prim2R 0.1 <= (G * 2) * (11 / 100))%R)
        by (apply Rmult_le_compat; lra).
      assert (eps * (Prim2R mean * Prim2R 0.1) <= / 1000 * ((G * 2) * (11 / 100)))%R
        by (apply Rmult_le_compat; lra).
      lra. }
  destruct HT as [PT BT].
  set (q := ((g - mu) * (g - mu))%float).
  pose proof (squares_constant mu) as Hsq. fold q in Hsq.
  assert (Rg : (bpow (-200) <= G < bpow 200)%R).
  { pose proof (bpow_le (-200) (-21) ltac:(lia)).
    pose proof (bpow_lt 44 200 ltac:(lia)). lra. }
  assert (Rmu : (bpow (-200) <= Prim2R mu < bpow 200)%R).
  { pose proof (bpow_le (-200) (-22) ltac:(lia)).
    pose proof (bpow_lt 45 200 ltac:(lia)). lra. }
  destruct (sub_error g mu Hg Pmu Rg Rmu)
    as [[Hz _]|(sg & m & e & Hd & Hd53 & Hlo & Herr)].
  - (* the mean is the gap: every deviation is a zero *)
    assert (Hq : Prim2SF q = S754_zero false).
    { unfold q. rewrite mul_spec, Hz. reflexivity. }
    assert (Hs0 : Prim2SF s = S754_zero false).
    { apply (summed_zeros _ _ Hs). eapply Forall_impl; [|exact Hsq].
      intros x ->. exact Hq. }
    assert (Hstd : Prim2SF (PrimFloat.sqrt
                     (s / PyFloat.of_int (Z.of_nat (List.length l))))
                   = S754_zero false).
    { rewrite sqrt_spec, div_spec, Hs0. destruct Pn as (mn & en & ->).
      reflexivity. }
    apply ltb_of_real; [right; exact Hstd|exact PT|].
    rewrite (Prim2R_zero _ _ Hstd). lra.
  - (* the mean is off the gap by a rounding *)
    fold G in Herr.
    set (V := (IZR (Z.pos m) * bpow e)%R) in *.
    set (D := Rabs (G - Prim2R mu)) in *.
    assert (HD : (0 <= D <= G / 1000)%R).
    { unfold D. split; [apply Rabs_pos|]. apply Rabs_le. lra. }
    apply Rabs_le_inv in Herr. fold eps in Herr.
    assert (HeD : (0 <= eps * D <= D)%R).
    { split; [apply Rmult_le_pos; lra|].
      apply Rle_trans with (1 * D)%R; [apply Rmult_le_compat_r; lra|lra]. }
    assert (HV : (bpow (-400) <= V <= G / 500)%R) by lra.
    assert (HVV : (bpow (-800) <= V * V <= (G / 500) * (G / 500))%R).
    { pose proof (bpow_pos (-400)).
      replace (bpow (-800)) with (bpow (-400) * bpow (-400))%R
        by (rewrite <- bpow_add; reflexivity).
      split; apply Rmult_le_compat; lra. }
    assert (HGG : (G * G <= bpow 88)%R).
    { replace (bpow 88) with (bpow 44 * bpow 44)%R
        by (rewrite <- bpow_add; reflexivity).
      apply Rmult_le_compat; lra. }
    set (W := (V * V)%R) in *.
    assert (HW : (W <= G * G / 250000)%R) by lra.
    pose proof (bpow_pos (-800)) as P800.
    destruct (mul_self_error (g - mu) sg m e Hd Hd53) as [Pq Bq].
    { fold V W. pose proof (bpow_le (-1021) (-800) ltac:(lia)).
      pose proof (bpow_lt 88 1023 ltac:(lia)). split; lra. }
    fold q V W eps in Pq, Bq. apply Rabs_le_inv in Bq.
    assert (HeW : (0 <= eps * W <= W / 1000)%R).
    { split; [apply Rmult_le_pos; lra|].
      apply Rle_trans with (/ 1000 * W)%R; [apply Rmult_le_compat_r; lra|lra]. }
    set (Q := Prim2R q) in *.
    assert (HQ : (W * (999 / 1000) <= Q <= W * (1001 / 1000))%R) by lra.
    (* the sum of the squares *)
    assert (Hlen' : List.length (map (fun x => ((x - mu) * (x - mu))%float) l)
                    = List.length l) by apply length_map.
    destruct (summed_constant q Pq _ s Hs Hsq) as [_ HS].
    { rewrite Hlen'. fold N. lra. }
    { rewrite Hlen'. fold N Q.
      pose proof (bpow_lt 129 1023 ltac:(lia)).
      replace (bpow 129) with (2 * (bpow 40 * bpow 88))%R in H
        by (rewrite <- bpow_add, <- bpow_double; reflexivity).
      assert (N * Q <= bpow 40 * bpow 88)%R by (apply Rmult_le_compat; lra).
      lra. }
    destruct HS as [Ps BS].
    { rewrite Hlen'. destruct l; [congruence|discriminate]. }
    rewrite Hlen' in BS. fold N Q eps in BS. apply Rabs_le_inv in BS.
    set (dl := (2 * (N - 1) * eps)%R) in *.
    assert (Hdl : (0 <= dl <= / 1000)%R).
    { unfold dl. split; [nra|]. rewrite E51 in Neta. nra. }
    replace (2 * N * (N - 1) * eps * Q)%R with (N * (dl * Q))%R in BS
      by (unfold dl; ring).
    set (t := (Prim2R s / N)%R).
    assert (Et : (Prim2R s = N * t)%R) by (unfold t; field; lra).
    assert (Bt : (- (dl * Q) <= t - Q <= dl * Q)%R).
    { rewrite Et in BS. split.
      - apply Rmult_le_reg_l with N; [lra|]. lra.
      - apply Rmult_le_reg_l with N; [lra|]. lra. }
    assert (HdQ : (0 <= dl * Q <= Q / 1000)%R).
    { split; [apply Rmult_le_pos; lra|].
      apply Rle_trans with (/ 1000 * Q)%R; [apply Rmult_le_compat_r; lra|lra]. }
    assert (Ht : (W * (99 / 100) <= t <= W * (101 / 100))%R) by lra.
    destruct (div_error s (PyFloat.of_int (Z.of_nat (List.length l))) Ps Pn)
      as [Pv Bv].
    { rewrite Fn. fold N t.
      pose proof (bpow_le (-1021) (-801) ltac:(lia)).
      pose proof (bpow_double (-801)) as D801.
      change (-801 + 1) with (-800) in D801.
      pose proof (bpow_pos (-801)).
      pose proof (bpow_lt 88 1023 ltac:(lia)). split; lra. }
    rewrite Fn in Bv. fold N t eps in Bv. apply Rabs_le_inv in Bv.
    set (var := (s / PyFloat.of_int (Z.of_nat (List.length l)))%float) in *.
    assert (Het : (0 <= eps * t <= t / 1000)%R).
    { split; [apply Rmult_le_pos; lra|].
      apply Rle_trans with (/ 1000 * t)%R; [apply Rmult_le_compat_r; lra|lra]. }
    assert (Hvar : (W * (98 / 100) <= Prim2R var <= W * (102 / 100))%R) by lra.
    destruct (sqrt_error var Pv) as [Pstd (r & Hr0 & Hrr & Br)].
    { pose proof (bpow_le (-1022) (-801) ltac:(lia)).
      pose proof (bpow_double (-801)) as D801.
      change (-801 + 1) with (-800) in D801.
      pose proof (bpow_pos (-801)). lra. }
    apply ltb_of_real; [left; exact Pstd|exact PT|].
    fold eps in Br. apply Rabs_le_inv in Br.
    assert (Her : (0 <= eps * r <= r / 1000)%R).
    { split; [apply Rmult_le_pos; lra|].
      apply Rle_trans with (/ 1000 * r)%R; [apply Rmult_le_compat_r; lra|lra]. }
    assert (Hr : (r <= G / 400)%R).
    { apply Rsqr_le_le; [exact Hr0|lra|]. rewrite Hrr. lra. }
    lra.
Qed.

End EqualGaps.

(** *** Exact results *)

Lemma shr_1_double c :
  0 <= c ->
  shr_1 (Build_shr_record (c * 2) false false) = Build_shr_record c false false.
Proof.
  intros Hc. destruct c as [|p|p]; try lia; [reflexivity|].
  replace (Z.pos p * 2) with (Z.pos p~0) by lia. reflexivity.
Qed.

Lemma iter_shr_1_exact n : forall c, 0 <= c ->
  iter_pos shr_1 n (Build_shr_record (c * 2 ^ Z.pos n) false false)
  = Build_shr_record c false false.
Proof.
  assert (Hpos : forall k, 0 < 2 ^ Z.pos k)
    by (intros k; apply Z.pow_pos_nonneg; lia).
  induction n as [n IH|n IH|]; intros c Hc; cbn [iter_pos].
  - replace (c * 2 ^ Z.pos n~1) with (c * 2 ^ Z.pos n * 2 ^ Z.pos n * 2).
    + pose proof (Hpos n). rewrite shr_1_double by nia.
      rewrite IH by nia. now rewrite IH.
    + rewrite (Pos2Z.inj_xI n).
      replace (2 * Z.pos n + 1) with (Z.pos n + Z.pos n + 1) by lia.
      rewrite !Z.pow_add_r by lia. rewrite Z.pow_1_r. ring.
  - replace (c * 2 ^ Z.pos n~0) with (c * 2 ^ Z.pos n * 2 ^ Z.pos n).
    + pose proof (Hpos n). rewrite IH by nia. now rewrite IH.
    + rewrite (Pos2Z.inj_xO n).
      replace (2 * Z.pos n) with (Z.pos n + Z.pos n) by lia.
      rewrite !Z.pow_add_r by lia. ring.
  - rewrite Z.pow_1_r. now apply shr_1_double.
Qed.

(** Rounding [c * 2^k * 2^ex] for a mantissa [c] of 53 digits is exact. *)
Lemma binary_round_aux_shift sx (c : positive) k ex :
  Zdigits2 (Z.pos c) = 53 -> 0 <= k -> -1074 <= ex + k <= 971 ->
  binary_round_aux prec emax sx (Z.pos c * 2 ^ k) ex loc_Exact
  = S754_finite sx c (ex + k).
Proof.
  intros Hd Hk He. unfold binary_round_aux, shr_fexp.
  rewrite Zdigits2_mul_pow2, Hd, fexp_eq by lia.
  replace (Z.max (53 + k + ex - 53) (-1074) - ex) with k by lia.
  assert (Hsh : shr (shr_record_of_loc (Z.pos c * 2 ^ k) loc_Exact) ex k
                = (Build_shr_record (Z.pos c) false false, ex + k)).
  { unfold shr. cbn [shr_record_of_loc]. destruct k as [|p|p]; try lia.
    - rewrite Z.pow_0_r, Z.mul_1_r, Z.add_0_r. reflexivity.
    - rewrite iter_shr_1_exact by lia. reflexivity. }
  rewrite Hsh. cbn [shr_m loc_of_shr_record round_nearest_even].
  rewrite Hd, fexp_eq.
  replace (Z.max (53 + (ex + k) - 53) (-1074) - (ex + k)) with 0 by lia.
  cbn [shr shr_record_of_loc shr_m].
  change (emax - prec) with 971.
  destruct He as [_ He]. apply Z.leb_le in He. now rewrite He.
Qed.

(** [binary_round] is exact on a value that binary64 represents: a
    mantissa [K * 2^j] with [K] of at most 53 digits. *)
Lemma binary_round_representable sx mx ex K j :
  -1074 <= ex -> Zdigits2 (Z.pos mx) + ex <= 1023 ->
  Z.pos mx = K * 2 ^ j -> 0 <= j -> Zdigits2 K <= 53 ->
  exists m e,
    binary_round prec emax sx mx ex = S754_finite sx m e
    /\ (IZR (Z.pos m) * bpow e = IZR (Z.pos mx) * bpow ex)%R.
Proof.
  intros Hex Hov EK Hj HdK.
  destruct (Z_le_gt_dec (Zdigits2 (Z.pos mx)) 53) as [Hle|Hgt].
  - destruct (binary_round_error sx mx ex Hex Hov) as (m & e & Hres & _ & _ & Hx).
    exists m, e. split; [exact Hres|exact (Hx Hle)].
  - assert (HK : 0 < K).
    { pose proof (Z.pow_pos_nonneg 2 j ltac:(lia) Hj). nia. }
    assert (Hd : Zdigits2 (Z.pos mx) = Zdigits2 K + j).
    { rewrite EK. apply Zdigits2_mul_pow2; lia. }
    set (k := Zdigits2 (Z.pos mx) - 53).
    assert (Hkj : 0 < k <= j) by (unfold k; lia).
    set (c := K * 2 ^ (j - k)).
    assert (Hc : 0 < c).
    { unfold c. pose proof (Z.pow_pos_nonneg 2 (j - k) ltac:(lia) ltac:(lia)). nia. }
    assert (Hdc : Zdigits2 c = 53).
    { unfold c. rewrite Zdigits2_mul_pow2 by lia. unfold k. lia. }
    assert (Emx : Z.pos mx = c * 2 ^ k).
    { unfold c. rewrite EK, <- Z.mul_assoc, <- Z.pow_add_r by lia.
      f_equal. f_equal. lia. }
    destruct c as [|pc|pc]; try lia.
    unfold binary_round.
    change (Z.pos (digits2_pos mx)) with (Zdigits2 (Z.pos mx)).
    rewrite shl_align_id by (rewrite fexp_eq; lia).
    rewrite Emx, binary_round_aux_shift by (unfold k; lia).
    exists pc, (ex + k). split; [reflexivity|].
    rewrite mult_IZR, <- bpow_IZR, bpow_add by lia. ring.
Qed.

(** A positive float whose value is an integer below [2^53]. *)
Lemma integer_float (x : float) a :
  positive_finite x -> Prim2R x = IZR a -> a < 2 ^ 53 ->
  exists m e, Prim2SF x = S754_finite false m e
    /\ -52 <= e <= 0 /\ 0 < a /\ Z.pos m = a * 2 ^ (- e).
Proof.
  intros (m & e & Hx) Ha Hlt.
  pose proof (Prim2SF_valid x) as Vx. rewrite Hx in Vx.
  rewrite (Prim2R_finite _ _ _ _ Hx) in Ha. cbn [cond_Zopp] in Ha.
  destruct (valid_canonical _ _ _ Vx) as [Hc _].
  pose proof (digits_value (Z.pos m) e ltac:(lia)) as [Hlo Hhi].
  pose proof (bpow_pos e) as Hpe.
  assert (Hm : (0 < IZR (Z.pos m))%R) by (apply IZR_lt; lia).
  assert (Ha0 : 0 < a).
  { apply lt_IZR. rewrite <- Ha. now apply Rmult_lt_0_compat. }
  assert (Ha1 : (1 <= IZR a)%R) by (apply IZR_le; lia).
  apply IZR_lt in Hlt. rewrite <- bpow_IZR in Hlt by lia.
  assert (H1 : (bpow (Zdigits2 (Z.pos m) - 1 + e) < bpow 53)%R) by lra.
  assert (H2 : (bpow 0 < bpow (Zdigits2 (Z.pos m) + e))%R)
    by (rewrite bpow_0; lra).
  apply bpow_lt_inv in H1, H2.
  assert (He : -52 <= e <= 0) by lia.
  exists m, e. split; [exact Hx|]. split; [exact He|]. split; [exact Ha0|].
  apply eq_IZR. rewrite mult_IZR, <- bpow_IZR, <- Ha by lia.
  rewrite Rmult_assoc, bpow_opp_mul. ring.
Qed.

Lemma add_exact (x y : float) a b :
  positive_finite x -> positive_finite y ->
  Prim2R x = IZR a -> Prim2R y = IZR b -> a + b < 2 ^ 53 ->
  positive_finite (x + y) /\ Prim2R (x + y) = IZR (a + b).
Proof.
  intros Px Py Ha Hb Hab.
  assert (Ha0 : 0 < a).
  { apply lt_IZR. rewrite <- Ha. now apply positive_finite_pos. }
  assert (Hb0 : 0 < b).
  { apply lt_IZR. rewrite <- Hb. now apply positive_finite_pos. }
  destruct (integer_float x a Px Ha ltac:(lia)) as (mx & ex & Hx & Hex & _ & Emx).
  destruct (integer_float y b Py Hb ltac:(lia)) as (my & ey & Hy & Hey & _ & Emy).
  assert (Hs : exists m e, Prim2SF (x + y) = S754_finite false m e
                 /\ (IZR (Z.pos m) * bpow e = IZR (a + b))%R).
  { rewrite add_spec, Hx, Hy. unfold SF64add. cbn [SFadd]. cbv zeta.
    cbn [cond_Zopp]. set (ez := Z.min ex ey).
    destruct (shl_align_value mx ex ez ltac:(unfold ez; lia)) as [_ Ex].
    destruct (shl_align_value my ey ez ltac:(unfold ez; lia)) as [_ Ey].
    set (pa := fst (shl_align mx ex ez)) in *.
    set (pb := fst (shl_align my ey ez)) in *.
    change (Z.pos pa + Z.pos pb) with (Z.pos (pa + pb)). cbn [binary_normalize].
    assert (EK : Z.pos (pa + pb) = (a + b) * 2 ^ (- ez)).
    { rewrite Pos2Z.inj_add, Ex, Ey, Emx, Emy.
      rewrite <- !Z.mul_assoc, <- !Z.pow_add_r by (unfold ez; lia).
      replace (- ex + (ex - ez)) with (- ez) by lia.
      replace (- ey + (ey - ez)) with (- ez) by lia. ring. }
    pose proof (Zdigits2_le 1 (a + b) ltac:(lia)) as Hd1.
    change (Zdigits2 1) with 1 in Hd1.
    assert (HdK : Zdigits2 (a + b) <= 53).
    { destruct (a + b) as [|p|p] eqn:E; try lia.
      apply Zdigits2_pos_bound; lia. }
    destruct (binary_round_representable false (pa + pb) ez (a + b) (- ez))
      as (m & e & Hres & Hval); try (unfold ez; lia); try assumption.
    { rewrite EK, Zdigits2_mul_pow2 by (unfold ez; lia). lia. }
    exists m, e. split; [exact Hres|]. rewrite Hval, EK, mult_IZR.
    rewrite <- bpow_IZR by (unfold ez; lia).
    rewrite Rmult_assoc, (Rmult_comm (bpow (- ez))), bpow_opp_mul. ring. }
  destruct Hs as (m & e & Hs & Hval).
  split; [now exists m, e|].
  rewrite (Prim2R_finite _ _ _ _ Hs). exact Hval.
Qed.

(** Sums of [n] copies of a whole number [k] are exact while [n * k] stays
    below [2^53], whatever the order of accumulation. *)
Lemma summed_exact (c : float) k l s :
  positive_finite c -> Prim2R c = IZR k ->
  summed l s -> Forall (fun x => x = c) l ->
  Z.of_nat (List.length l) * k < 2 ^ 53 ->
  (List.length l = 0%nat -> Prim2SF s = S754_zero false)
  /\ (List.length l <> 0%nat ->
      positive_finite s /\ Prim2R s = IZR (Z.of_nat (List.length l) * k)).
Proof.
  intros Pc Hc.
  assert (Hk : 0 < k).
  { apply lt_IZR. rewrite <- Hc. now apply positive_finite_pos. }
  induction 1 as [|x|l1 l2 s1 s2 H1 IH1 H2 IH2|l l' s HP H IH]; intros HF Hn.
  - split; [reflexivity|]. intros N. now elim N.
  - apply Forall_inv in HF. subst x. split; [discriminate|]. intros _.
    split; [exact Pc|]. cbn [List.length]. rewrite Hc. f_equal. lia.
  - apply Forall_app in HF. destruct HF as [F1 F2].
    rewrite length_app in *.
    destruct (IH1 F1 ltac:(nia)) as [Z1 N1].
    destruct (IH2 F2 ltac:(nia)) as [Z2 N2].
    destruct (Nat.eq_dec (List.length l1) 0) as [E1|E1];
      destruct (Nat.eq_dec (List.length l2) 0) as [E2|E2].
    + split; [intros _|lia]. rewrite add_zero_l; auto.
    + split; [lia|intros _]. specialize (Z1 E1). destruct (N2 E2) as [Q2 B2].
      assert (Es : Prim2SF (s1 + s2) = Prim2SF s2) by (apply add_zero_l; auto).
      rewrite E1. cbn [Nat.add]. unfold positive_finite, Prim2R in *.
      rewrite Es. split; assumption.
    + split; [lia|intros _]. specialize (Z2 E2). destruct (N1 E1) as [Q1 B1].
      assert (Es : Prim2SF (s1 + s2) = Prim2SF s1) by (apply add_zero_r; auto).
      rewrite E2, Nat.add_0_r. unfold positive_finite, Prim2R in *.
      rewrite Es. split; assumption.
    + split; [lia|intros _].
      destruct (N1 E1) as [Q1 B1]. destruct (N2 E2) as [Q2 B2].
      destruct (add_exact s1 s2 _ _ Q1 Q2 B1 B2 ltac:(nia)) as [Q B].
      split; [exact Q|]. rewrite B. f_equal. nia.
  - assert (EL : List.length l' = List.length l)
      by (symmetry; now apply Permutation_length).
    rewrite EL in *. apply IH; auto.
    eapply Permutation_Forall; [|exact HF]. now apply Permutation_sym.
Qed.

Lemma Zdigits2_mul_le a b :
  0 < a -> 0 < b -> Zdigits2 (a * b) <= Zdigits2 a + Zdigits2 b.
Proof.
  intros Ha Hb.
  pose proof (Zdigits2_lt_pow2 a ltac:(lia)) as La.
  pose proof (Zdigits2_lt_pow2 b ltac:(lia)) as Lb.
  pose proof (Zdigits2_nonneg a). pose proof (Zdigits2_nonneg b).
  assert (Hlt : a * b < 2 ^ (Zdigits2 a + Zdigits2 b)).
  { rewrite Z.pow_add_r by lia. apply Z.mul_lt_mono_nonneg; lia. }
  destruct (a * b) as [|p|p] eqn:E; try lia.
  apply Zdigits2_pos_bound; lia.
Qed.

(** The quotient of the whole numbers [n * k] and [n] is exact. *)
Lemma div_exact (x y : float) n k :
  positive_finite x -> positive_finite y ->
  Prim2R x = IZR (n * k) -> Prim2R y = IZR n ->
  0 < n -> 0 < k -> n * k < 2 ^ 53 ->
  positive_finite (x / y) /\ Prim2R (x / y) = IZR k.
Proof.
  intros Px Py Hxv Hyv Hn Hk Hnk.
  destruct (integer_float x (n * k) Px Hxv Hnk)
    as (mx & ex & Hx & Hex & _ & Emx).
  destruct (integer_float y n Py Hyv ltac:(nia)) as (my & ey & Hy & Hey & _ & Emy).
  assert (Hs : exists m e, Prim2SF (x / y) = S754_finite false m e
                 /\ (IZR (Z.pos m) * bpow e = IZR k)%R).
  { rewrite div_spec, Hx, Hy. unfold SF64div. cbn [SFdiv].
    pose proof (SFdiv_core_binary_spec (Z.pos mx) ex (Z.pos my) ey
                  ltac:(lia) ltac:(lia)) as Hspec.
    unfold SFdiv_core_binary in *.
    assert (Hdx : Zdigits2 (Z.pos mx) + ex = Zdigits2 (n * k)).
    { rewrite Emx, Zdigits2_mul_pow2 by nia. lia. }
    assert (Hdy : Zdigits2 (Z.pos my) + ey = Zdigits2 n).
    { rewrite Emy, Zdigits2_mul_pow2 by lia. lia. }
    pose proof (Zdigits2_mul_le n k Hn Hk) as Hmul.
    assert (Hdk : Zdigits2 k <= 53).
    { destruct k as [|p|p]; try lia. apply Zdigits2_pos_bound; nia. }
    pose proof (Zdigits2_le 1 k ltac:(lia)) as Hdk1.
    change (Zdigits2 1) with 1 in Hdk1.
    pose proof (Zdigits2_le n (n * k) ltac:(nia)) as Hdn.
    set (e' := Z.min (fexp prec emax (Zdigits2 (Z.pos mx) + ex
                                      - (Zdigits2 (Z.pos my) + ey))) (ex - ey))
      in *.
    assert (He' : -1074 < e' <= 0).
    { unfold e'. rewrite fexp_eq, Hdx, Hdy. lia. }
    set (s := ex - ey - e') in *.
    assert (Hs : 0 <= s) by (unfold s, e'; lia).
    rewrite (shift_numerator (Z.pos mx) s Hs) in *.
    assert (Em' : Z.pos mx * 2 ^ s = k * 2 ^ (- e') * Z.pos my).
    { rewrite Emx, Emy.
      replace (n * k * 2 ^ (- ex) * 2 ^ s)
        with (n * k * (2 ^ (- ex) * 2 ^ s)) by ring.
      replace (k * 2 ^ (- e') * (n * 2 ^ (- ey)))
        with (n * k * (2 ^ (- e') * 2 ^ (- ey))) by ring.
      rewrite <- !Z.pow_add_r by lia. f_equal. f_equal. unfold s. lia. }
    assert (Ediv : Z.div_eucl (Z.pos mx * 2 ^ s) (Z.pos my)
                   = (k * 2 ^ (- e'), 0)).
    { pose proof (Z.div_mul (k * 2 ^ (- e')) (Z.pos my) ltac:(lia)) as Hq.
      pose proof (Z.mod_mul (k * 2 ^ (- e')) (Z.pos my) ltac:(lia)) as Hr.
      rewrite <- Em' in Hq, Hr. unfold Z.div, Z.modulo in Hq, Hr.
      destruct (Z.div_eucl (Z.pos mx * 2 ^ s) (Z.pos my)) as [q r].
      now subst. }
    rewrite Ediv in *.
    assert (Eloc : new_location (Z.pos my) 0 = loc_Exact).
    { unfold new_location. destruct (Z.even (Z.pos my)); reflexivity. }
    rewrite Eloc. cbn [xorb].
    destruct Hspec as (_ & Hfe & _). rewrite fexp_eq in Hfe.
    assert (Hdq : Zdigits2 (k * 2 ^ (- e')) = Zdigits2 k + - e').
    { apply Zdigits2_mul_pow2; lia. }
    rewrite Hdq in Hfe.
    set (kk := Zdigits2 k - e' - 53).
    assert (Hkk : 0 <= kk <= - e') by (unfold kk; lia).
    set (c := k * 2 ^ (- e' - kk)).
    assert (Hc : 0 < c).
    { unfold c. pose proof (Z.pow_pos_nonneg 2 (- e' - kk) ltac:(lia) ltac:(lia)).
      nia. }
    assert (Hdc : Zdigits2 c = 53).
    { unfold c. rewrite Zdigits2_mul_pow2 by lia. unfold kk. lia. }
    assert (Eq : k * 2 ^ (- e') = c * 2 ^ kk).
    { unfold c. rewrite <- Z.mul_assoc, <- Z.pow_add_r by lia.
      f_equal. f_equal. lia. }
    destruct c as [|pc|pc]; try lia.
    rewrite Eq, binary_round_aux_shift by (unfold kk; lia).
    exists pc, (e' + kk). split; [reflexivity|].
    assert (Ek : (IZR k = IZR (Z.pos pc) * bpow kk * bpow e')%R).
    { pose proof (f_equal IZR Eq) as EqR.
      rewrite !mult_IZR, <- !bpow_IZR in EqR by lia.
      rewrite <- EqR, Rmult_assoc, (Rmult_comm (bpow (- e'))), bpow_opp_mul.
      ring. }
    rewrite Ek, bpow_add. ring. }
  destruct Hs as (m & e & Hs & Hval).
  split; [now exists m, e|].
  rewrite (Prim2R_finite _ _ _ _ Hs). exact Hval.
Qed.

(** Two positive floats of the same value are the same float. *)
Lemma positive_finite_eq (x y : float) :
  positive_finite x -> positive_finite y -> Prim2R x = Prim2R y -> x = y.
Proof.
  intros (mx & ex & Hx) (my & ey & Hy) Hv.
  pose proof (Prim2SF_valid x) as Vx. pose proof (Prim2SF_valid y) as Vy.
  rewrite Hx in Vx. rewrite Hy in Vy.
  rewrite (Prim2R_finite _ _ _ _ Hx), (Prim2R_finite _ _ _ _ Hy) in Hv.
  cbn [cond_Zopp] in Hv.
  destruct (valid_canonical _ _ _ Vx) as [Cx _].
  destruct (valid_canonical _ _ _ Vy) as [Cy _].
  pose proof (digits_value (Z.pos mx) ex ltac:(lia)) as [Lx Ux].
  pose proof (digits_value (Z.pos my) ey ltac:(lia)) as [Ly Uy].
  assert (H1 : (bpow (Zdigits2 (Z.pos mx) - 1 + ex)
                < bpow (Zdigits2 (Z.pos my) + ey))%R) by lra.
  assert (H2 : (bpow (Zdigits2 (Z.pos my) - 1 + ey)
                < bpow (Zdigits2 (Z.pos mx) + ex))%R) by lra.
  apply bpow_lt_inv in H1, H2.
  assert (Ee : ex = ey) by lia. subst ey.
  assert (Em : mx = my).
  { pose proof (bpow_pos ex). apply Pos2Z.inj, eq_IZR. nra. }
  subst my.
  rewrite <- (SF2Prim_Prim2SF x), <- (SF2Prim_Prim2SF y). now rewrite Hx, Hy.
Qed.

(** The mean of [n] copies of the whole number [k] is [k]. *)
Lemma mean_exact (g mu : float) k l :
  1 <= k -> Z.of_nat (List.length l) * k < 2 ^ 53 -> l <> [] ->
  g = PyFloat.of_int k ->
  Forall (fun x => x = g) l ->
  mean_of_sum mu l -> mu = g.
Proof.
  intros Hk Hnk Hne Eg Hall (s & Hs & ->).
  assert (Hn : List.length l <> 0%nat) by (destruct l; [congruence|discriminate]).
  destruct (of_int_exact k ltac:(nia)) as [Pg Vg]. rewrite <- Eg in Pg, Vg.
  destruct (of_int_exact (Z.of_nat (List.length l)) ltac:(nia)) as [Pn Vn].
  destruct (summed_exact g k l s Pg Vg Hs Hall Hnk) as [_ HS].
  destruct (HS Hn) as [Ps Vs].
  destruct (div_exact s _ _ k Ps Pn Vs Vn ltac:(lia) ltac:(lia) Hnk) as [Pm Vm].
  apply positive_finite_eq; [exact Pm|exact Pg|]. now rewrite Vm, Vg.
Qed.

(** *** Groups with equal intervals *)

Lemma intervals_of_length executions :
  List.length (intervals_of executions) = pred (List.length executions).
Proof.
  induction executions as [|a l IH]; [reflexivity|].
  destruct l as [|b l]; [reflexivity|].
  cbn [intervals_of List.length] in *. now rewrite IH.
Qed.

(** A positive interval between two datetimes is the rounded quotient of a
    positive count of microseconds. *)
Lemma positive_gap executions g :
  (2 <= List.length executions)%nat ->
  valid_group executions = true ->
  Forall (fun x => x = g) (intervals_of executions) ->
  (0 <? g)%float = true ->
  exists d, 0 < d < 2 ^ 62 /\ g = Datetime.total_seconds d.
Proof.
  intros Hlen Hv Hall Hpos.
  destruct executions as [|a [|b rest]]; cbn [List.length] in Hlen; try lia.
  cbn [intervals_of] in Hall. apply Forall_inv in Hall.
  cbn [valid_group forallb] in Hv.
  apply andb_true_iff in Hv. destruct Hv as [Va Hv].
  apply andb_true_iff in Hv. destruct Hv as [Vb _].
  pose proof (valid_datetime_sub_range _ _ Vb Va) as Hd.
  set (d := Datetime.sub (JobExecution.timestamp b) (JobExecution.timestamp a)) in *.
  exists d. split; [|now symmetry].
  subst g. rewrite ltb_spec, Prim2SF_total_seconds, Prim2SF_0 in Hpos by exact Hd.
  destruct d as [|p|p]; [discriminate|lia|exfalso].
  destruct (truediv_us_spec true p) as (m & e & e1 & Hres & _).
  { apply Zdigits2_pos_bound; [discriminate|].
    apply Z.opp_lt_mono. rewrite Pos2Z.opp_pos. apply Hd. }
  change (PyFloat.Z2SF (Z.neg p)) with (S754_finite true p 0) in Hpos.
  change (PyFloat.Z2SF us_per_second) with (S754_finite false 1000000 0) in Hpos.
  rewrite Hres in Hpos. discriminate.
Qed.

Lemma gap_range d :
  0 < d < 2 ^ 62 ->
  (bpow (-21) <= Prim2R (Datetime.total_seconds d) <= bpow 44)%R.
Proof.
  intros Hd. destruct (total_seconds_error d Hd) as [_ B].
  apply Rabs_le_inv in B. pose proof bpow_m52 as [He0 He].
  destruct Hd as [H1 H2]. assert (H1' : 1 <= d) by lia.
  apply IZR_le in H1'. apply IZR_lt in H2.
  change (2 ^ 62) with 4611686018427387904 in H2.
  rewrite (bpow_neg (-21)), (bpow_IZR 44) by lia.
  change (2 ^ (- -21)) with 2097152. change (2 ^ 44) with 17592186044416.
  set (t := (IZR d / 1000000)%R) in *.
  assert (Ht : (/ 1000000 <= t <= 4611686018427387904 / 1000000)%R)
    by (unfold t; lra).
  assert (Het : (0 <= bpow (-52) * t <= t / 1000)%R).
  { split; [apply Rmult_le_pos; lra|].
    apply Rle_trans with (/ 1000 * t)%R; [apply Rmult_le_compat_r; lra|lra]. }
  lra.
Qed.

(** The left-to-right instance computes its statistics from sums. *)
Lemma summed_fold_left l : forall l0 acc,
  summed l0 acc -> summed (l0 ++ l) (fold_left PrimFloat.add l acc).
Proof.
  induction l as [|x l IH]; intros l0 acc H; cbn [fold_left].
  - now rewrite app_nil_r.
  - replace (l0 ++ x :: l) with ((l0 ++ [x]) ++ l)
      by (now rewrite <- app_assoc).
    apply IH. apply summed_app; [exact H|apply summed_one].
Qed.

Lemma Numpy_sum_summed l : summed l (Numpy.sum l).
Proof. apply (summed_fold_left l [] 0%float), summed_nil. Qed.

Lemma Numpy_mean_of_sum l : mean_of_sum (Numpy.mean l) l.
Proof. exists (Numpy.sum l). split; [apply Numpy_sum_summed|reflexivity]. Qed.

Lemma Numpy_std_of_sum l : std_of_sum (Numpy.std l) l.
Proof.
  exists (Numpy.mean l), (Numpy.sum (map (fun x =>
            ((x - Numpy.mean l) * (x - Numpy.mean l))%float) l)).
  split; [apply Numpy_mean_of_sum|].
  split; [apply Numpy_sum_summed|reflexivity].
Qed.

Lemma Prim2SF_million :
  Prim2SF 1000000 = S754_finite false 8589934592000000 (-33).
Proof. vm_compute. reflexivity. Qed.

(** [timedelta(seconds=k)] for a whole number [k] of seconds, given as a
    float. *)
Lemma of_seconds_whole k :
  1 <= k < 2 ^ 45 ->
  Datetime.of_seconds (PyFloat.of_int k) = Ok (k * us_per_second).
Proof.
  intros Hk.
  destruct (of_int_exact k) as [Px Vx].
  { change (2 ^ 53) with (2 ^ 45 * 256). lia. }
  destruct (integer_float _ k Px Vx) as (m & e & Hx & He & _ & Em).
  { change (2 ^ 53) with (2 ^ 45 * 256). lia. }
  set (x := PyFloat.of_int k) in *.
  assert (Hint : PyFloat.int x = k).
  { unfold PyFloat.int, PyFloat.to_int. rewrite Hx. cbn [cond_Zopp].
    unfold PyFloat.trunc_dyadic. destruct e as [|p|p]; try lia.
    - rewrite Z.shiftl_0_r, Em. change (2 ^ (- 0)) with 1. lia.
    - rewrite Z.shiftr_div_pow2, Em by lia.
      change (- Z.neg p) with (Z.pos p). apply Z.div_mul.
      pose proof (Z.pow_pos_nonneg 2 (Z.pos p)). lia. }
  assert (Hfrac : Prim2SF (x - PyFloat.of_int (PyFloat.int x)) = S754_zero false).
  { rewrite Hint. fold x. rewrite sub_spec, Hx. unfold SF64sub. cbn [SFsub].
    cbv zeta. rewrite Z.min_id, shl_align_id by lia. cbn [fst cond_Zopp].
    now rewrite Z.sub_diag. }
  assert (Hus : PyFloat.round (1000000 * (x - PyFloat.of_int (PyFloat.int x)))
                = Some 0).
  { unfold PyFloat.round. rewrite mul_spec, Hfrac, Prim2SF_million.
    reflexivity. }
  unfold Datetime.of_seconds. rewrite Hx. cbv zeta. rewrite Hus, Hint.
  assert (Hv : valid_timedelta (k * us_per_second + 0) = true).
  { unfold valid_timedelta, max_delta_days, us_per_day, us_per_second.
    apply andb_true_iff. rewrite !Z.leb_le.
    change (2 ^ 45) with 35184372088832 in Hk.
    split.
    - apply Z.le_trans with 0; [lia|]. apply Z.div_pos; lia.
    - apply Z.lt_succ_r. apply Z.div_lt_upper_bound; lia. }
  rewrite Hv. f_equal. lia.
Qed.

(** [timedelta(seconds=x)] of a finite [x] can only fail by overflow, and so
    can the addition of the result to a [datetime]. *)
Lemma of_seconds_finite (x : float) (e : exn) :
  positive_finite x -> Datetime.of_seconds x = Raise e -> e = OverflowError.
Proof.
  intros (m & ex & Hx). unfold Datetime.of_seconds. rewrite Hx. cbv zeta.
  destruct (valid_timedelta _); [discriminate|]. now intros [= <-].
Qed.

Lemma next_prediction_overflow (np_mean : list float -> float)
    (executions : list JobExecution.t) (e : exn) :
  positive_finite (np_mean (intervals_of executions)) ->
  next_prediction np_mean executions = Raise e -> e = OverflowError.
Proof.
  intros Hm. unfold next_prediction, bind.
  destruct (Datetime.of_seconds _) as [delta|e'] eqn:E.
  - unfold Datetime.add. destruct (valid_datetime _); [discriminate|].
    now intros [= <-].
  - intros [= <-]. now apply (of_seconds_finite _ _ Hm E).
Qed.

(** ** The claims *)

(** C1, as the code has it: a group of at least three records whose
    intervals have np.std < np.mean * 0.1, and for which the last timestamp
    plus np.mean seconds is a representable datetime, is classified cron
    (periodic) with confidence 0.9, interval_seconds the mean interval and
    next_predicted the last timestamp plus that many seconds. *)
Theorem C1_periodic_classification (np_mean np_std : list float -> float)
    (executions : list JobExecution.t) (next_predicted : datetime) :
  (3 <= List.length executions)%nat ->
  (np_std (intervals_of executions)
   <? np_mean (intervals_of executions) * 0.1)%float = true ->
  next_prediction np_mean executions = Ok next_predicted ->
  _analyze_job_pattern np_mean np_std executions
  = Ok (cron (np_mean (intervals_of executions)) 0.9 next_predicted).
Proof.
  intros Hlen Hstd Hnext.
  rewrite analyze_long by lia.
  unfold periodic_test. rewrite Hstd.
  apply Nat.leb_le in Hlen. rewrite Hlen. simpl.
  now rewrite Hnext.
Qed.

Lemma C1_periodic_classification_witness :
  _analyze_job_pattern Numpy.mean Numpy.std quarter_hourly
  = Ok (cron 900 0.9 (plus_seconds t0 2700)).
Proof.
  apply (C1_periodic_classification Numpy.mean Numpy.std quarter_hourly).
  - simpl. lia.
  - vm_compute. reflexivity.
  - vm_compute. reflexivity.
Defined.

(** The claim C1 fails at the end of the calendar: daily runs on the last
    three days of year 9999 are sorted, number three and have equal
    intervals, and the analyzer raises OverflowError instead of returning a
    summary. *)
Lemma C1_year_end_counterexample :
  valid_group year_end_daily = true
  /\ sorted_ascending year_end_daily = true
  /\ (3 <=? List.length year_end_daily)%nat = true
  /\ (Numpy.std (intervals_of year_end_daily)
      <? 0.1 * Numpy.mean (intervals_of year_end_daily))%float = true
  /\ _analyze_job_pattern Numpy.mean Numpy.std year_end_daily
     = Raise OverflowError.
Proof. vm_compute. repeat split. Qed.



(** C3, as the code has it. On a group that fails the periodic test and,
    if it has five or more records, has every record's timestamp plus ten
    minutes representable as a datetime, the analyzer answers bursty with
    confidence 0.7 exactly when the group has at least five records and
    some window anchored at a record, both ends included, holds three or
    more of them. A group that passes the periodic test is never answered
    bursty, and is answered cron whenever its next_predicted is
    representable. *)
Theorem C3_burst_classification (np_mean np_std : list float -> float)
    (executions : list JobExecution.t) :
  (periodic_test np_mean np_std executions = false ->
   windows_in_range executions ->
   (_analyze_job_pattern np_mean np_std executions = Ok (bursty 0.7 true)
    <-> burst_criterion executions))
  /\ (periodic_test np_mean np_std executions = true ->
      (forall confidence indicators,
         _analyze_job_pattern np_mean np_std executions
         <> Ok (bursty confidence indicators))
      /\ (forall next_predicted,
            next_prediction np_mean executions = Ok next_predicted ->
            _analyze_job_pattern np_mean np_std executions
            = Ok (cron (np_mean (intervals_of executions)) 0.9
                    next_predicted))).
Proof.
  split.
  - intros Hper Hwin. rewrite <- burst_test_criterion.
    destruct (Nat.lt_ge_cases (List.length executions) 2) as [H|H].
    + rewrite (analyze_short _ _ _ H). split; [discriminate|].
      unfold burst_test. intros Hb. apply andb_true_iff in Hb.
      destruct Hb as [Hb _]. apply negb_true_iff, Nat.ltb_ge in Hb. lia.
    + rewrite (analyze_long _ _ _ H), Hper, (detect_burst_in_range _ Hwin).
      simpl. destruct (burst_test executions); split; auto; discriminate.
  - intros Hper.
    assert (H : (2 <= List.length executions)%nat).
    { unfold periodic_test in Hper. apply andb_true_iff in Hper.
      destruct Hper as [_ Hper]. apply Nat.leb_le in Hper. lia. }
    rewrite (analyze_long _ _ _ H), Hper. split.
    + intros c b. destruct (next_prediction np_mean executions); discriminate.
    + intros next ->. reflexivity.
Qed.

Lemma C3_burst_classification_witness :
  _analyze_job_pattern Numpy.mean Numpy.std clustered = Ok (bursty 0.7 true)
  /\ burst_criterion clustered.
Proof.
  assert (Hper : periodic_test Numpy.mean Numpy.std clustered = false)
    by (vm_compute; reflexivity).
  assert (Hwin : windows_in_range clustered)
    by (intros _; repeat constructor).
  pose proof (proj1 (C3_burst_classification Numpy.mean Numpy.std clustered)
                Hper Hwin) as Hiff.
  assert (Hb : _analyze_job_pattern Numpy.mean Numpy.std clustered
               = Ok (bursty 0.7 true)) by (vm_compute; reflexivity).
  split; [exact Hb|exact (proj1 Hiff Hb)].
Defined.

(** The claim C3 fails at the end of the calendar: five simultaneous runs
    at 9999-12-31T23:55 fail the periodic test and meet the burst criterion,
    and the analyzer raises OverflowError when it opens the first window. *)
Lemma C3_year_end_counterexample :
  valid_group year_end_burst = true
  /\ sorted_ascending year_end_burst = true
  /\ periodic_test Numpy.mean Numpy.std year_end_burst = false
  /\ burst_criterion year_end_burst
  /\ _analyze_job_pattern Numpy.mean Numpy.std year_end_burst
     = Raise OverflowError.
Proof.
  split; [reflexivity|]. split; [reflexivity|].
  split; [vm_compute; reflexivity|].
  split; [|vm_compute; reflexivity].
  apply burst_test_criterion. vm_compute. reflexivity.
Qed.

(** C4, as the code has it: for a bursty summary whose confidence exceeds
    0.6 the generator always emits a prediction with the fixed window
    "1-3 minutes", the action prewarm and the confidence of the summary. *)
Theorem C4_bursty_prediction (job_id : string) (confidence : float)
    (burst_indicators : bool) (current_time : datetime) :
  (0.6 <? confidence)%float = true ->
  _generate_prediction job_id (bursty confidence burst_indicators) current_time
  = Some (PredictionResult.Build job_id "1-3 minutes" confidence "prewarm"
            "Burst pattern detected - high activity expected").
Proof.
  intros H. simpl. now rewrite H.
Qed.

Lemma C4_bursty_prediction_witness :
  _generate_prediction "api" (bursty 0.7 true) t0
  = Some (PredictionResult.Build "api" "1-3 minutes" 0.7 "prewarm"
            "Burst pattern detected - high activity expected").
Proof.
  apply (C4_bursty_prediction "api" 0.7 true t0).
  vm_compute. reflexivity.
Defined.

(** The claim C4 fails on the window: for the bursty summary of the
    analyzer, whose confidence 0.7 exceeds 0.6, the prediction carries
    ["1-3 minutes"], which is not the string of the claim. *)
Lemma C4_window_counterexample :
  (0.6 <? 0.7)%float = true
  /\ option_map PredictionResult.predicted_run_time_window
       (_generate_prediction "api" (bursty 0.7 true) t0)
     = Some "1-3 minutes"%string
  /\ "1-3 minutes"%string <> "imminent, within 1–3 minutes"%string.
Proof.
  split; [reflexivity|]. split; [reflexivity|]. discriminate.
Qed.




(** C6: whatever group the analyzer returns a summary for, its type is one
    of insufficient_data, cron (periodic), bursty and on_demand (irregular),
    and its confidence lies in [0,1]. *)
Theorem C6_summary_invariant (np_mean np_std : list float -> float)
    (executions : list JobExecution.t) (pattern : Pattern) :
  _analyze_job_pattern np_mean np_std executions = Ok pattern ->
  In (pattern_type pattern)
     ["insufficient_data"; "cron"; "bursty"; "on_demand"]%string
  /\ unit_interval (pattern_confidence pattern).
Proof.
  intros H. apply analyze_shape in H.
  destruct H as [-> | [[next ->] | [-> | ->]]]; simpl;
    (split; [tauto|split; reflexivity]).
Qed.

Lemma C6_summary_invariant_witness :
  In (pattern_type (bursty 0.7 true))
     ["insufficient_data"; "cron"; "bursty"; "on_demand"]%string
  /\ unit_interval (pattern_confidence (bursty 0.7 true)).
Proof.
  apply (C6_summary_invariant Numpy.mean Numpy.std clustered).
  vm_compute. reflexivity.
Defined.

(** C7, as the code has it. If next_predicted is a representable
    datetime when a non-empty group passes the periodic test, and every
    ten-minute window that is opened ends at one when it does not, the
    analyzer returns a summary and does not raise. For a group of at least two records that fails both the
    periodic and the burst test that summary is on_demand (irregular) with
    confidence 0.4, avg_interval the mean interval and variability std/avg
    when avg is positive and 1 otherwise, in particular when avg is 0. *)
Theorem C7_definite_summary (np_mean np_std : list float -> float)
    (executions : list JobExecution.t) :
  executions <> [] ->
  (periodic_test np_mean np_std executions = false ->
   windows_in_range executions) ->
  (periodic_test np_mean np_std executions = true ->
   exists next_predicted,
     next_prediction np_mean executions = Ok next_predicted) ->
  let avg := np_mean (intervals_of executions) in
  let std := np_std (intervals_of executions) in
  (exists pattern,
     _analyze_job_pattern np_mean np_std executions = Ok pattern)
  /\ ((2 <= List.length executions)%nat ->
      periodic_test np_mean np_std executions = false ->
      burst_test executions = false ->
      exists variability,
        _analyze_job_pattern np_mean np_std executions
        = Ok (on_demand avg 0.4 variability)
        /\ ((0 <? avg)%float = true -> variability = (std / avg)%float)
        /\ ((0 <? avg)%float = false -> variability = 1%float)
        /\ ((avg =? 0)%float = true -> variability = 1%float)).
Proof.
  intros _ Hwin Hnext avg std. split.
  - destruct (Nat.lt_ge_cases (List.length executions) 2) as [H|H].
    + rewrite (analyze_short _ _ _ H). eauto.
    + rewrite (analyze_long _ _ _ H).
      destruct (periodic_test np_mean np_std executions).
      * destruct (Hnext eq_refl) as [next ->]. simpl. eauto.
      * rewrite (detect_burst_in_range _ (Hwin eq_refl)). simpl. eauto.
  - intros H Hper Hburst.
    rewrite (analyze_long _ _ _ H), Hper,
      (detect_burst_in_range _ (Hwin Hper)), Hburst.
    exists (variability_of np_mean np_std executions).
    split; [reflexivity|].
    unfold variability_of. fold avg. fold std.
    split; [|split].
    + now intros ->.
    + now intros ->.
    + intros H0. now rewrite (FloatOrder.eqb_not_ltb _ _ H0).
Qed.

Lemma C7_definite_summary_witness :
  _analyze_job_pattern Numpy.mean Numpy.std scattered
  = Ok (on_demand 14400 0.4 0.75).
Proof.
  assert (Hne : scattered <> []) by discriminate.
  assert (Hwin : periodic_test Numpy.mean Numpy.std scattered = false ->
            windows_in_range scattered)
    by (intros _ _; repeat constructor).
  assert (Hper : periodic_test Numpy.mean Numpy.std scattered = true ->
            exists next_predicted,
              next_prediction Numpy.mean scattered = Ok next_predicted)
    by (intros H; vm_compute in H; discriminate).
  destruct (proj2 (C7_definite_summary Numpy.mean Numpy.std scattered
                     Hne Hwin Hper))
    as (v & Hv & Hpos & _ & _).
  - simpl. lia.
  - vm_compute. reflexivity.
  - vm_compute. reflexivity.
  - rewrite Hv, Hpos by (vm_compute; reflexivity).
    vm_compute. reflexivity.
Defined.

(** The claim C7 fails twice. A single run fails the periodic and the burst
    test and is answered insufficient_data, not irregular. Hourly runs at
    21:00, 22:00 and 23:00 of 9999-12-31 make the analyzer raise
    OverflowError, their next_predicted being past datetime.max. *)
Lemma C7_counterexample :
  (single <> []
   /\ periodic_test Numpy.mean Numpy.std single = false
   /\ burst_test single = false
   /\ _analyze_job_pattern Numpy.mean Numpy.std single
      = Ok (insufficient_data 0.1))
  /\ (year_end_hourly <> []
      /\ valid_group year_end_hourly = true
      /\ sorted_ascending year_end_hourly = true
      /\ _analyze_job_pattern Numpy.mean Numpy.std year_end_hourly
         = Raise OverflowError).
Proof.
  split; (split; [discriminate|]); vm_compute; repeat split.
Qed.

(** C8: on summaries whose confidences lie in [0,1] the generator's output
    is sorted by descending confidence, it holds exactly the predictions
    that [_generate_prediction] emitted, and predictions of equal
    confidence stand in the order of the summaries they come from, so the
    order of ties is determined by the input; and what [predict_next_jobs]
    returns is sorted by descending confidence. *)
Theorem C8_ranked_output (current_time : datetime) :
  (forall patterns,
     Forall (fun jp => unit_interval (pattern_confidence (snd jp))) patterns ->
     let emitted := collect_predictions patterns current_time in
     let output := rank_predictions emitted in
     StronglySorted confidence_ge output
     /\ Permutation emitted output
     /\ forall c, with_confidence c output = with_confidence c emitted)
  /\ (forall np_mean np_std job_executions predictions,
        predict_next_jobs np_mean np_std job_executions current_time
        = Ok predictions ->
        StronglySorted confidence_ge predictions).
Proof.
  split.
  - intros patterns Hconf emitted output. split; [|split].
    + now apply rank_predictions_descending.
    + apply sort_by_reverse_perm.
    + intros c. unfold with_confidence, output, rank_predictions.
      apply (sort_by_reverse_filter PredictionResult.confidence_score
               PrimFloat.ltb (fun k => (k =? c)%float)).
      intros a b. apply FloatOrder.ltb_class.
  - intros np_mean np_std job_executions predictions H.
    apply predict_next_jobs_patterns in H.
    destruct H as (patterns & -> & _ & Hsrc).
    apply rank_predictions_descending.
    apply Forall_forall. intros [k p] Hin.
    destruct (Hsrc _ _ Hin) as [ex Hex]. simpl.
    exact (analyzed_confidence _ _ _ _ Hex).
Qed.

Lemma C8_ranked_output_witness :
  let emitted := collect_predictions summaries (plus_seconds t0 2600) in
  let output := rank_predictions emitted in
  StronglySorted confidence_ge output
  /\ Permutation emitted output
  /\ forall c, with_confidence c output = with_confidence c emitted.
Proof.
  apply (proj1 (C8_ranked_output (plus_seconds t0 2600)) summaries).
  repeat constructor.
Defined.



(** C10: a prediction that the generator emits for a summary of the
    analyzer is a prewarm, and so is every prediction that
    [predict_next_jobs] returns: no prediction carries the action skip. *)
Theorem C10_always_prewarm (np_mean np_std : list float -> float)
    (current_time : datetime) :
  (forall executions pattern job_id r,
     _analyze_job_pattern np_mean np_std executions = Ok pattern ->
     _generate_prediction job_id pattern current_time = Some r ->
     PredictionResult.action r = "prewarm"%string
     /\ PredictionResult.action r <> "skip"%string)
  /\ (forall job_executions predictions,
        predict_next_jobs np_mean np_std job_executions current_time
        = Ok predictions ->
        Forall (fun r => PredictionResult.action r = "prewarm"%string
                         /\ PredictionResult.action r <> "skip"%string)
          predictions).
Proof.
  assert (Hone : forall executions pattern job_id r,
     _analyze_job_pattern np_mean np_std executions = Ok pattern ->
     _generate_prediction job_id pattern current_time = Some r ->
     PredictionResult.action r = "prewarm"%string
     /\ PredictionResult.action r <> "skip"%string).
  { intros executions pattern job_id r Ha Hg.
    rewrite (analyzed_prediction_prewarm _ _ _ _ _ _ _ Ha Hg).
    split; [reflexivity|discriminate]. }
  split; [exact Hone|].
  intros job_executions predictions.
  unfold predict_next_jobs. destruct job_executions as [|j js].
  - intros [= <-]. constructor.
  - destruct (analyze_job_history np_mean np_std (j :: js))
      as [analysis|] eqn:E; [|discriminate].
    simpl. intros [= <-].
    eapply Permutation_Forall; [apply sort_by_reverse_perm|].
    apply Forall_forall. intros r Hr.
    apply collect_predictions_In in Hr.
    destruct Hr as (k & p & Hin & Hg).
    destruct (analyze_job_history_patterns _ _ _ _ E _ _ Hin) as [ex Hex].
    exact (Hone _ _ _ _ Hex Hg).
Qed.

Lemma C10_always_prewarm_witness :
  Forall (fun r => PredictionResult.action r = "prewarm"%string
                   /\ PredictionResult.action r <> "skip"%string)
    (rank_predictions
       [PredictionResult.Build "api" "1-3 minutes" 0.7 "prewarm"
          "Burst pattern detected - high activity expected";
        PredictionResult.Build "etl" "1:40 minutes" 0.9 "prewarm"
          "Cron pattern detected with 900s intervals"]).
Proof.
  apply (proj2 (C10_always_prewarm Numpy.mean Numpy.std (plus_seconds t0 2600))
           history).
  vm_compute. reflexivity.
Defined.
